(** * SignBoard Reader: clap monitor, recognition loop and speech sink

    A shallow embedding of the runtime core of the application:

    - [AudioDetector.processAudio]   (src/AudioDetector.tsx)
    - [SignboardReader] handlers, the [processImage] cycle and the
      auto-start effect (src/SignboardReader.tsx)
    - [TextToSpeech.speak]           (src/TextToSpeech.tsx)

    JavaScript strings are sequences of UTF-16 code units; timers, the
    speech queue and the React render cycle are explicit state. An
    [async] function is cut at the [await]s that wait for another turn of
    the event loop; what a closure captured from the render that created
    it is carried along with the closure. *)

From Stdlib Require Import String Ascii ZArith NArith QArith List Bool Lia.
From Stdlib Require PrimFloat Uint63.
Import ListNotations.
Local Open Scope Z_scope.

(** ** JavaScript strings *)

Module JS.

Definition code_unit := N.
Definition jsstring := list code_unit.

(** A source literal (all literals of the program are ASCII). *)
Definition lit (s : string) : jsstring :=
  map N_of_ascii (list_ascii_of_string s).

(** ECMAScript WhiteSpace and LineTerminator code units, the ones
    [String.prototype.trim] strips. *)
Definition isWhiteSpace (c : code_unit) : bool :=
  ((9 <=? c) && (c <=? 13) || (c =? 32) || (c =? 160) || (c =? 5760)
   || (8192 <=? c) && (c <=? 8202) || (c =? 8232) || (c =? 8233)
   || (c =? 8239) || (c =? 8287) || (c =? 12288) || (c =? 65279))%N.

Fixpoint trimStart (s : jsstring) : jsstring :=
  match s with
  | c :: r => if isWhiteSpace c then trimStart r else s
  | [] => []
  end.

Definition trimEnd (s : jsstring) : jsstring := rev (trimStart (rev s)).

Definition trim (s : jsstring) : jsstring := trimEnd (trimStart s).

(** [s.substring(0, n)] *)
Definition substring0 (n : nat) (s : jsstring) : jsstring := firstn n s.

(** truthiness of a string: only the empty string is falsy *)
Definition truthy (s : jsstring) : bool :=
  match s with [] => false | _ :: _ => true end.

End JS.

Import JS.
Coercion lit : string >-> jsstring.
Arguments lit : simpl never.
Local Open Scope string_scope.
Local Open Scope list_scope.
Local Open Scope Z_scope.

(** ** AudioDetector.tsx: the clap monitor *)

Module AudioDetector.

(** Clap detection parameters *)
Definition clapThreshold : Q := 8 # 10.
Definition clapCooldown : Z := 1000.

(** The refs and state touched by [processAudio]. [lastClapTimeRef] is
    created by [useRef<number>(0)], [audioLevel] by [useState(0)]. *)
Record Monitor := mkMonitor {
  lastClapTimeRef : Z;
  audioLevel : Q
}.

Definition initialMonitor : Monitor :=
  {| lastClapTimeRef := 0; audioLevel := 0 |}.

(** [dataArray.reduce((acc, val) => acc + val, 0)] *)
Definition sum (dataArray : list Z) : Z :=
  fold_left (fun acc val => acc + val) dataArray 0.

(** [sum / bufferLength / 255]. The level is kept as an exact rational;
    the byte sum is an integer and the only comparison made on the level
    is against the threshold. An empty buffer gives [0/0], which never
    exceeds the threshold (in JavaScript [NaN > 0.8] is false, here the
    quotient is [0]). *)
Definition normalizedLevel (dataArray : list Z) : Q :=
  let bufferLength := Z.of_nat (length dataArray) in
  let average := (inject_Z (sum dataArray) / inject_Z bufferLength)%Q in
  (average / inject_Z 255)%Q.

(** The same computation in the binary64 arithmetic of JavaScript
    numbers; the byte sum and the buffer length are integers far below
    2^53 and are represented exactly. *)
Definition number (z : Z) : PrimFloat.float :=
  PrimFloat.of_uint63 (Uint63.of_Z z).

Definition normalizedLevel_double (dataArray : list Z) : PrimFloat.float :=
  let bufferLength := Z.of_nat (length dataArray) in
  let average := PrimFloat.div (number (sum dataArray)) (number bufferLength) in
  PrimFloat.div average (number 255).

(** The literal [0.8] is the double nearest to 8/10. *)
Definition clapThreshold_double : PrimFloat.float :=
  PrimFloat.div (number 8) (number 10).

(** [a > b] on levels *)
Definition gtQ (a b : Q) : bool := negb (Qle_bool a b).

(** What one call of [processAudio] did. *)
Record Outcome := mkOutcome {
  clap : bool;          (* onClapDetected() was called *)
  after : Monitor;
  rescheduled : bool    (* requestAnimationFrame(processAudio) was called *)
}.

(** [processAudio], with [analyser] the content of [analyserRef.current]
    (the byte frequency data it would deliver) and [now] the value of
    [Date.now()]. *)
Definition processAudio (analyser : option (list Z)) (now : Z) (m : Monitor)
  : Outcome :=
  match analyser with
  | None => {| clap := false; after := m; rescheduled := false |}
  | Some dataArray =>
      let level := normalizedLevel dataArray in
      let m := {| lastClapTimeRef := lastClapTimeRef m; audioLevel := level |} in
      if gtQ level clapThreshold then
        if now - lastClapTimeRef m >? clapCooldown then
          {| clap := true;
             after := {| lastClapTimeRef := now; audioLevel := level |};
             rescheduled := true |}
        else {| clap := false; after := m; rescheduled := true |}
      else {| clap := false; after := m; rescheduled := true |}
  end.

(** One sampling tick of a running monitor: the analyser is attached and
    delivers [frequencyData]; [time] is [Date.now()] on that tick. *)
Record Tick := mkTick {
  frequencyData : list Z;
  time : Z
}.

Definition tick (m : Monitor) (tk : Tick) : Outcome :=
  processAudio (Some (frequencyData tk)) (time tk) m.

(** The sampling loop over a sequence of ticks: for every tick, whether
    a ClapEvent was emitted on it. *)
Fixpoint monitor (m : Monitor) (ticks : list Tick) : list bool :=
  match ticks with
  | [] => []
  | tk :: rest => clap (tick m tk) :: monitor (after (tick m tk)) rest
  end.

(** The monitor after a sequence of ticks. *)
Definition monitorAfter (m : Monitor) (ticks : list Tick) : Monitor :=
  fold_left (fun m tk => after (tick m tk)) ticks m.

(** Spec side: the time of the event emitted last during [ticks], or
    [init] when none was emitted. *)
Definition previousEvent (init : Z) (ticks : list Tick) (emitted : list bool)
  : Z :=
  last (map (fun p => time (fst p))
            (filter (fun p => snd p) (combine ticks emitted)))
       init.

End AudioDetector.

(** ** SignboardReader.tsx: activation toggle and recognition loop *)

Module SignboardReader.

Inductive Language := eng | hin | tel.

Definition Language_eqb (a b : Language) : bool :=
  match a, b with
  | eng, eng | hin, hin | tel, tel => true
  | _, _ => false
  end.

Record SignboardReaderState := mkState {
  isActive : bool;
  isProcessing : bool;
  recognizedText : jsstring;
  currentLanguage : Language;
  status : jsstring;
  error : option jsstring
}.

Definition initialState : SignboardReaderState :=
  {| isActive := false;
     isProcessing := false;
     recognizedText := "";
     currentLanguage := eng;
     status := "Ready to start. Clap to activate!";
     error := None |}.

(** The part of [state] a [processImage] closure reads. [processImage]
    is memoised by [useCallback] on exactly these three values (its other
    dependencies, [speakStatus] and [updateStatus], never change), so a
    closure is determined by the values of the render that created it,
    and it keeps them however [state] changes afterwards. *)
Record Captured := mkCaptured {
  c_isActive : bool;
  c_isProcessing : bool;
  c_currentLanguage : Language
}.

Definition capture_state (s : SignboardReaderState) : Captured :=
  {| c_isActive := isActive s;
     c_isProcessing := isProcessing s;
     c_currentLanguage := currentLanguage s |}.

Definition Captured_eqb (a b : Captured) : bool :=
  Bool.eqb (c_isActive a) (c_isActive b)
  && Bool.eqb (c_isProcessing a) (c_isProcessing b)
  && Language_eqb (c_currentLanguage a) (c_currentLanguage b).

(** The two functions handed to [setTimeout]. *)
Inductive Callback :=
| AutoStart (c : Captured)   (* setTimeout(processImage, 1000), the effect *)
| Rescan (c : Captured).     (* () => { if (state.isActive) processImage(); } *)

Record Timer := mkTimer {
  timerId : Z;
  due : Z;
  callback : Callback
}.

Record Utterance := mkUtterance {
  u_text : jsstring;
  u_lang : jsstring;
  u_rate : Q;
  u_volume : Q
}.

(** A [processImage] call suspended at the recognition service. *)
Record Cycle := mkCycle {
  cycleId : Z;
  closure : Captured
}.

(** A thrown value: an [Error] with its message, or anything else. *)
Inductive Thrown := ErrorObject (message : jsstring) | OtherValue.

(** What [cameraRef.current.captureImage()] settles to. *)
Inductive CaptureResult :=
| CaptureResolved (imageData : option jsstring)
| CaptureRejected (e : Thrown).

(** What the recognition steps ([import], [createWorker], [recognize],
    [terminate]) settle to. *)
Inductive RecognitionResult :=
| Recognized (text : jsstring)
| RecognitionRejected (e : Thrown).

(** The component instance and the browser around it. *)
Record World := mkWorld {
  now : Z;                                  (* clock, ms *)
  state : SignboardReaderState;             (* useState *)
  processingTimeoutRef : option Z;          (* useRef<Timeout | null>(null) *)
  cameraRef : bool;                         (* cameraRef.current is set *)
  cameraExit : option Z;                    (* end of CameraView's exit transition *)
  timers : list Timer;                      (* pending setTimeout calls *)
  nextTimerId : Z;                          (* ids count from 1: every id is truthy *)
  speechSynthesis : option (list Utterance);(* None: not in window; else all speak() calls *)
  pending : list Cycle;                     (* cycles awaiting recognition *)
  nextCycleId : Z;
  rendered : Captured;                      (* dependencies seen by the last render *)
  effectTimer : option Z                    (* timer the effect's cleanup clears *)
}.

Definition initialWorld : World :=
  {| now := 0; state := initialState; processingTimeoutRef := None;
     cameraRef := false; cameraExit := None; timers := []; nextTimerId := 1;
     speechSynthesis := Some []; pending := []; nextCycleId := 0;
     rendered := capture_state initialState; effectTimer := None |}.

(** *** Field updates *)

Definition with_now (t : Z) (w : World) : World :=
  mkWorld t (state w) (processingTimeoutRef w) (cameraRef w) (cameraExit w)
          (timers w) (nextTimerId w) (speechSynthesis w) (pending w)
          (nextCycleId w) (rendered w) (effectTimer w).

Definition setState (f : SignboardReaderState -> SignboardReaderState)
  (w : World) : World :=
  mkWorld (now w) (f (state w)) (processingTimeoutRef w) (cameraRef w)
          (cameraExit w) (timers w) (nextTimerId w) (speechSynthesis w)
          (pending w) (nextCycleId w) (rendered w) (effectTimer w).

Definition with_processingTimeoutRef (r : option Z) (w : World) : World :=
  mkWorld (now w) (state w) r (cameraRef w) (cameraExit w) (timers w)
          (nextTimerId w) (speechSynthesis w) (pending w) (nextCycleId w)
          (rendered w) (effectTimer w).

Definition with_camera (r : bool) (e : option Z) (w : World) : World :=
  mkWorld (now w) (state w) (processingTimeoutRef w) r e (timers w)
          (nextTimerId w) (speechSynthesis w) (pending w) (nextCycleId w)
          (rendered w) (effectTimer w).

Definition with_timers (l : list Timer) (n : Z) (w : World) : World :=
  mkWorld (now w) (state w) (processingTimeoutRef w) (cameraRef w)
          (cameraExit w) l n (speechSynthesis w) (pending w) (nextCycleId w)
          (rendered w) (effectTimer w).

Definition with_speechSynthesis (q : option (list Utterance)) (w : World)
  : World :=
  mkWorld (now w) (state w) (processingTimeoutRef w) (cameraRef w)
          (cameraExit w) (timers w) (nextTimerId w) q (pending w)
          (nextCycleId w) (rendered w) (effectTimer w).

Definition with_pending (l : list Cycle) (n : Z) (w : World) : World :=
  mkWorld (now w) (state w) (processingTimeoutRef w) (cameraRef w)
          (cameraExit w) (timers w) (nextTimerId w) (speechSynthesis w) l n
          (rendered w) (effectTimer w).

Definition with_effect (c : Captured) (t : option Z) (w : World) : World :=
  mkWorld (now w) (state w) (processingTimeoutRef w) (cameraRef w)
          (cameraExit w) (timers w) (nextTimerId w) (speechSynthesis w)
          (pending w) (nextCycleId w) c t.

(** *** Browser services *)

(** [setTimeout(cb, delay)]: the new timer's id and the world holding it. *)
Definition setTimeout (cb : Callback) (delay : Z) (w : World) : Z * World :=
  let id := nextTimerId w in
  (id, with_timers (timers w ++ [mkTimer id (now w + delay) cb]) (id + 1) w).

(** [clearTimeout(id)]: a timer that already fired is not in the list and
    clearing it does nothing. *)
Definition clearTimeout (id : Z) (w : World) : World :=
  with_timers (filter (fun t => negb (timerId t =? id)) (timers w))
              (nextTimerId w) w.

(** [speakStatus(text, language = 'en-US')] *)
Definition speakStatus (text language : jsstring) (w : World) : World :=
  match speechSynthesis w with
  | Some spoken =>
      with_speechSynthesis
        (Some (spoken ++ [mkUtterance text language (9 # 10) (8 # 10)])) w
  | None => w
  end.

Definition en_US : jsstring := "en-US".

(** [updateStatus(status)] *)
Definition updateStatus (s : jsstring) (w : World) : World :=
  setState (fun prev => mkState (isActive prev) (isProcessing prev)
                          (recognizedText prev) (currentLanguage prev)
                          s (error prev)) w.

(** *** handleClapDetected *)

Definition handleClapDetected (w : World) : World :=
  let prev := state w in
  let newIsActive := negb (isActive prev) in
  if newIsActive then
    let w := speakStatus "SignBoard Reader activated. Point camera at text."
                         en_US w in
    setState (fun prev =>
      {| isActive := true;
         isProcessing := isProcessing prev;
         recognizedText := recognizedText prev;
         currentLanguage := currentLanguage prev;
         status := "Camera activated! Point at text to read.";
         error := None |}) w
  else
    let w := speakStatus "SignBoard Reader deactivated." en_US w in
    let w := match processingTimeoutRef w with
             | Some id => clearTimeout id w
             | None => w
             end in
    setState (fun prev =>
      {| isActive := false;
         isProcessing := false;
         recognizedText := "";
         currentLanguage := currentLanguage prev;
         status := "Deactivated. Clap to activate again.";
         error := error prev |}) w.

(** *** handleLanguageChange *)

Definition languageNames (l : Language) : jsstring :=
  match l with eng => "English" | hin => "Hindi" | tel => "Telugu" end.

Definition handleLanguageChange (language : Language) (w : World) : World :=
  let w := setState (fun prev => mkState (isActive prev) (isProcessing prev)
                                   (recognizedText prev) language
                                   (status prev) (error prev)) w in
  speakStatus (lit "Language changed to " ++ languageNames language) en_US w.

(** *** processImage *)

(** The [catch] block. *)
Definition processImage_catch (e : Thrown) (w : World) : World :=
  let w := setState (fun prev =>
      {| isActive := isActive prev;
         isProcessing := false;
         recognizedText := recognizedText prev;
         currentLanguage := currentLanguage prev;
         status := "Error during text recognition. Please try again.";
         error := Some match e with
                       | ErrorObject message => message
                       | OtherValue => lit "Unknown error occurred"
                       end |}) w in
  speakStatus "Error during text recognition. Please try again." en_US w.

(** The language handed to the speech engine. *)
Definition ttsLanguage (l : Language) : jsstring :=
  match l with
  | hin => "hi-IN"
  | tel => "te-IN"
  | eng => "en-US"
  end.

(** The status line of a successful scan. *)
Definition foundStatus (cleanText : jsstring) : jsstring :=
  lit "Found text: " ++ substring0 50 cleanText
    ++ (if (50 <? length cleanText)%nat then lit "..." else lit "").

(** From the call up to the [await] on the recognition service. [c] is
    what the called closure captured. [captureImage] is an [async]
    function without an [await] of its own, so its result is known in the
    same turn; it is given as [cap]. The call ends either at the guard, or
    in the [catch] block, or suspended as a new pending cycle. *)
Definition processImage (c : Captured) (cap : CaptureResult) (w : World)
  : World :=
  if negb (c_isActive c) || c_isProcessing c || negb (cameraRef w) then w
  else
    let w := setState (fun prev =>
        {| isActive := isActive prev;
           isProcessing := true;
           recognizedText := recognizedText prev;
           currentLanguage := currentLanguage prev;
           status := "Scanning for text...";
           error := error prev |}) w in
    let w := speakStatus "Scanning for text, please wait." en_US w in
    match cap with
    | CaptureRejected e => processImage_catch e w
    | CaptureResolved imageData =>
        if match imageData with
           | None => true
           | Some d => negb (truthy d)
           end
        then processImage_catch (ErrorObject "Failed to capture image") w
        else
          let w := updateStatus "Processing text recognition..." w in
          with_pending (pending w ++ [mkCycle (nextCycleId w) c])
                       (nextCycleId w + 1) w
    end.

(** The rest of a suspended call, once recognition has settled. *)
Definition processImage_resume (c : Captured) (r : RecognitionResult)
  (w : World) : World :=
  match r with
  | RecognitionRejected e => processImage_catch e w
  | Recognized text =>
      let cleanText := trim text in
      if (0 <? length cleanText)%nat then
        let w := setState (fun prev =>
            {| isActive := isActive prev;
               isProcessing := false;
               recognizedText := cleanText;
               currentLanguage := currentLanguage prev;
               status := foundStatus cleanText;
               error := error prev |}) w in
        let w := speakStatus cleanText (ttsLanguage (c_currentLanguage c)) w in
        let '(id, w) := setTimeout (Rescan c) 3000 w in
        with_processingTimeoutRef (Some id) w
      else
        let w := setState (fun prev =>
            {| isActive := isActive prev;
               isProcessing := false;
               recognizedText := recognizedText prev;
               currentLanguage := currentLanguage prev;
               status := "No text found. Try adjusting the camera position.";
               error := error prev |}) w in
        let w := speakStatus
                   "No text found. Try adjusting the camera position." en_US w in
        let '(id, w) := setTimeout (Rescan c) 1500 w in
        with_processingTimeoutRef (Some id) w
  end.

(** Running a timer's callback. *)
Definition runCallback (cb : Callback) (cap : CaptureResult) (w : World)
  : World :=
  match cb with
  | AutoStart c => processImage c cap w
  | Rescan c => if c_isActive c then processImage c cap w else w
  end.

(** *** Rendering *)

(** [<AnimatePresence>{state.isActive && <motion.div exit=... transition=
    {{ duration: 0.5 }}><CameraView ref={cameraRef} .../>...}]: the camera
    view is mounted (and the ref set) when a render sees [isActive]; when
    a render stops producing it, it stays mounted for the 500 ms exit
    transition. *)
Definition cameraView (w : World) : World :=
  if isActive (state w) then with_camera true None w
  else if cameraRef w then
    match cameraExit w with
    | None => with_camera true (Some (now w + 500)) w
    | Some _ => w
    end
  else w.

(** The auto-start effect, with dependencies [[state.isActive,
    processImage]]. [processImage] is a new function exactly when one of
    its three captured values differs from the previous render's, so the
    effect is re-run exactly when [capture_state] changed: first the
    previous run's cleanup, then the body. *)
Definition autoStartEffect (w : World) : World :=
  let current := capture_state (state w) in
  if Captured_eqb current (rendered w) then w
  else
    let w := match effectTimer w with
             | Some timer => clearTimeout timer w
             | None => w
             end in
    if isActive (state w) && negb (isProcessing (state w)) then
      let '(timer, w) := setTimeout (AutoStart current) 1000 w in
      with_effect current (Some timer) w
    else with_effect current None w.

(** A render and commit of the component after its state was updated. *)
Definition render (w : World) : World := autoStartEffect (cameraView w).

(** *** The event loop *)

(** What can happen to the component. Each event is one turn of the
    browser's event loop; state updates made during a turn are batched
    and rendered once, after it. *)
Inductive Event :=
| Clap                                               (* onClapDetected *)
| LanguageSelected (language : Language)             (* onLanguageChange *)
| TimerFired (id : Z) (cap : CaptureResult)          (* a setTimeout callback runs *)
| RecognitionSettled (cycle : Z) (r : RecognitionResult)
| CameraExited.                                      (* exit transition done *)

Definition findTimer (id : Z) (w : World) : option Timer :=
  find (fun t => timerId t =? id) (timers w).

Definition findCycle (id : Z) (w : World) : option Cycle :=
  find (fun c => cycleId c =? id) (pending w).

(** No timer is left waiting past its time. *)
Definition nothingOverdue (t : Z) (w : World) : bool :=
  forallb (fun tm => t <=? due tm) (timers w)
  && match cameraExit w with Some e => t <=? e | None => true end.

(** The handler of an event happening at time [t]; [None] when the event
    cannot happen then (time running backwards, a timer that is not due
    or does not exist, a cycle that is not pending). *)
Definition dispatch (t : Z) (ev : Event) (w : World) : option World :=
  if (now w <=? t) && nothingOverdue t w then
    let w := with_now t w in
    match ev with
    | Clap => Some (handleClapDetected w)
    | LanguageSelected language => Some (handleLanguageChange language w)
    | TimerFired id cap =>
        match findTimer id w with
        | Some tm =>
            if due tm =? t
            then Some (runCallback (callback tm) cap (clearTimeout id w))
            else None
        | None => None
        end
    | RecognitionSettled id r =>
        match findCycle id w with
        | Some cy =>
            let w := with_pending
                       (filter (fun c => negb (cycleId c =? id)) (pending w))
                       (nextCycleId w) w in
            Some (processImage_resume (closure cy) r w)
        | None => None
        end
    | CameraExited =>
        match cameraExit w with
        | Some e => if e =? t then Some (with_camera false None w) else None
        | None => None
        end
    end
  else None.

Definition step (w : World) (e : Z * Event) : option World :=
  option_map render (dispatch (fst e) (snd e) w).

Fixpoint run (w : World) (trace : list (Z * Event)) : option World :=
  match trace with
  | [] => Some w
  | e :: rest =>
      match step w e with
      | Some w' => run w' rest
      | None => None
      end
  end.

(** Timers waiting to start a cycle. *)
Definition pendingTimers (w : World) : nat := length (timers w).

(** Cycles in flight. *)
Definition cyclesInFlight (w : World) : nat := length (pending w).

End SignboardReader.

(** ** TextToSpeech.tsx: the announcement sink *)

Module TextToSpeech.

Import SignboardReader.

Record Props := mkProps {
  text : jsstring;
  language : Language;
  autoSpeak : bool
}.

Definition languageMap (l : Language) : jsstring :=
  match l with
  | eng => "en-US"
  | hin => "hi-IN"
  | tel => "te-IN"
  end.

Record SpeechUtterance := mkSpeechUtterance {
  su_text : jsstring;
  su_lang : jsstring;
  su_rate : Q;
  su_volume : Q;
  su_voice : option jsstring
}.

(** The component's state together with the speech engine it drives. *)
Record Sink := mkSink {
  isSpeaking : bool;
  isPaused : bool;
  isSupported : bool;
  selectedVoice : option jsstring;
  speechRate : Q;
  speechVolume : Q;
  queue : list SpeechUtterance;   (* utterances the engine plays or will play *)
  enginePaused : bool;
  notified : list bool            (* onSpeakingChange calls *)
}.

Definition with_queue (q : list SpeechUtterance) (s : Sink) : Sink :=
  mkSink (isSpeaking s) (isPaused s) (isSupported s) (selectedVoice s)
         (speechRate s) (speechVolume s) q (enginePaused s) (notified s).

Definition with_flags (speaking paused enginePaused' : bool)
  (n : list bool) (s : Sink) : Sink :=
  mkSink speaking paused (isSupported s) (selectedVoice s) (speechRate s)
         (speechVolume s) (queue s) enginePaused' n.

(** [speechSynthesis.cancel()] *)
Definition cancel (s : Sink) : Sink := with_queue [] s.

(** [speak(textToSpeak = text)] *)
Definition speak (arg : option jsstring) (p : Props) (s : Sink) : Sink :=
  let textToSpeak := match arg with Some t => t | None => text p end in
  if negb (isSupported s) || negb (truthy (trim textToSpeak)) then s
  else
    let s := cancel s in
    let utterance :=
      {| su_text := textToSpeak;
         su_lang := languageMap (language p);
         su_rate := speechRate s;
         su_volume := speechVolume s;
         su_voice := selectedVoice s |} in
    with_queue (queue s ++ [utterance]) s.

(** [utterance.onstart], [utterance.onend] and [utterance.onerror] *)
Definition onstart (s : Sink) : Sink :=
  with_flags true false (enginePaused s) (notified s ++ [true]) s.

Definition onend (s : Sink) : Sink :=
  with_flags false false (enginePaused s) (notified s ++ [false]) s.

Definition onerror (s : Sink) : Sink :=
  with_flags false false (enginePaused s) (notified s ++ [false]) s.

Definition pause (s : Sink) : Sink :=
  if isSpeaking s && negb (isPaused s)
  then with_flags (isSpeaking s) true true (notified s) s
  else s.

Definition resume (s : Sink) : Sink :=
  if isSpeaking s && isPaused s
  then with_flags (isSpeaking s) false false (notified s) s
  else s.

Definition stop (s : Sink) : Sink :=
  with_flags false false (enginePaused s) (notified s ++ [false]) (cancel s).

End TextToSpeech.

(** * Properties *)

(** ** Strings *)

Section StringFacts.

Lemma truthy_length (s : jsstring) : truthy s = (0 <? length s)%nat.
Proof. destruct s; reflexivity. Qed.

Lemma length_pos_nonempty (s : jsstring) :
  (0 <? length s)%nat = true <-> s <> [].
Proof.
  destruct s; simpl; split; intros H; try congruence; try reflexivity.
  now elim H.
Qed.

Lemma trimStart_all_ws (s : jsstring) :
  forallb isWhiteSpace s = true -> trimStart s = [].
Proof.
  induction s as [|c s IH]; simpl; [reflexivity|].
  intros H. apply andb_true_iff in H as [Hc Hs]. rewrite Hc. auto.
Qed.

(** A whitespace-only string trims to the empty string. *)
Lemma trim_all_ws (s : jsstring) :
  forallb isWhiteSpace s = true -> trim s = [].
Proof.
  intros H. unfold trim. rewrite (trimStart_all_ws s H). reflexivity.
Qed.

(** What [trimStart] leaves does not begin with whitespace. *)
Lemma trimStart_head (s : jsstring) c r :
  trimStart s = c :: r -> isWhiteSpace c = false.
Proof.
  induction s as [|x s IH]; simpl; [discriminate|].
  destruct (isWhiteSpace x) eqn:E; auto.
  intros [= -> _]. exact E.
Qed.

Lemma trimStart_nil_iff (s : jsstring) :
  trimStart s = [] <-> forallb isWhiteSpace s = true.
Proof.
  split; [|apply trimStart_all_ws].
  induction s as [|c s IH]; cbn [trimStart forallb]; [reflexivity|].
  destruct (isWhiteSpace c); [exact IH|discriminate].
Qed.

Lemma forallb_rev {A} (p : A -> bool) (l : list A) :
  forallb p (rev l) = forallb p l.
Proof.
  destruct (forallb p l) eqn:E.
  - rewrite forallb_forall in *. intros x Hx. apply E, in_rev, Hx.
  - destruct (forallb p (rev l)) eqn:E'; [|reflexivity].
    rewrite forallb_forall in E'.
    assert (forallb p l = true); [|congruence].
    apply forallb_forall. intros x Hx. apply E'. rewrite <- in_rev. exact Hx.
Qed.

(** What is left by [trimStart] is whitespace only when the whole string
    was. *)
Lemma trimStart_ws (s : jsstring) :
  forallb isWhiteSpace (trimStart s) = forallb isWhiteSpace s.
Proof.
  induction s as [|c s IH]; cbn [trimStart]; [reflexivity|].
  destruct (isWhiteSpace c) eqn:E; [|reflexivity].
  cbn [forallb]. rewrite E. exact IH.
Qed.

(** "Empty or whitespace-only after trimming": [trim] gives the empty
    string exactly for the strings made of whitespace only. *)
Lemma trim_empty_iff (s : jsstring) :
  trim s = [] <-> forallb isWhiteSpace s = true.
Proof.
  unfold trim, trimEnd. rewrite <- trimStart_ws, <- forallb_rev.
  rewrite <- trimStart_nil_iff. split.
  - intros H. apply (f_equal (@rev _)) in H.
    rewrite rev_involutive in H. exact H.
  - intros ->. reflexivity.
Qed.

End StringFacts.

(** ** The clap monitor *)

Section ClapMonitor.

Import AudioDetector.

Lemma gtQ_spec (a b : Q) : gtQ a b = true <-> (b < a)%Q.
Proof.
  unfold gtQ. rewrite negb_true_iff. split.
  - intros H. apply Qnot_le_lt. intros Hle.
    apply Qle_bool_iff in Hle. congruence.
  - intros H. destruct (Qle_bool a b) eqn:E; [|reflexivity].
    apply Qle_bool_iff in E. exfalso. exact (Qlt_not_le _ _ H E).
Qed.

(** One tick: a clap is reported exactly when the level is above the
    threshold and more than the cooldown has passed since the time in
    [lastClapTimeRef]. *)
Lemma tick_clap (m : Monitor) (tk : Tick) :
  clap (tick m tk) = true <->
  (clapThreshold < normalizedLevel (frequencyData tk))%Q
  /\ time tk - lastClapTimeRef m > clapCooldown.
Proof.
  unfold tick, processAudio. cbn [lastClapTimeRef].
  destruct (gtQ _ clapThreshold) eqn:G.
  - apply gtQ_spec in G.
    destruct (Z.gtb (time tk - lastClapTimeRef m) clapCooldown) eqn:C;
      cbn [clap].
    + apply Z.gtb_lt in C. split; [intros _; split; [exact G|lia]|auto].
    + split; [discriminate|]. intros [_ H].
      assert (Z.gtb (time tk - lastClapTimeRef m) clapCooldown = true)
        by (apply Z.gtb_lt; lia).
      congruence.
  - cbn [clap]. split; [discriminate|]. intros [H _].
    apply gtQ_spec in H. congruence.
Qed.

(** One tick: the timestamp moves to the tick's time exactly on a clap. *)
Lemma tick_lastClapTimeRef (m : Monitor) (tk : Tick) :
  lastClapTimeRef (after (tick m tk)) =
  if clap (tick m tk) then time tk else lastClapTimeRef m.
Proof.
  unfold tick, processAudio. cbn [lastClapTimeRef].
  destruct (gtQ _ clapThreshold);
    [destruct (Z.gtb _ clapCooldown)|]; reflexivity.
Qed.

Lemma monitor_app (m : Monitor) (before rest : list Tick) :
  monitor m (before ++ rest) =
  monitor m before ++ monitor (monitorAfter m before) rest.
Proof.
  revert m; induction before as [|tk before IH]; intros m; simpl.
  - reflexivity.
  - f_equal. apply IH.
Qed.

Lemma monitor_length (m : Monitor) (ticks : list Tick) :
  length (monitor m ticks) = length ticks.
Proof.
  revert m; induction ticks as [|tk ticks IH]; intros m; simpl; auto.
Qed.

Lemma last_cons {A} (a d : A) (l : list A) : last (a :: l) d = last l a.
Proof.
  revert a d; induction l as [|b l IH]; intros a d; [reflexivity|].
  change (last (a :: b :: l) d) with (last (b :: l) d).
  rewrite (IH b d), (IH b a). reflexivity.
Qed.

(** The timestamp held by the monitor is the time of the event emitted
    last (or the initial timestamp when there was none). *)
Lemma lastClapTimeRef_previousEvent (m : Monitor) (ticks : list Tick) :
  lastClapTimeRef (monitorAfter m ticks) =
  previousEvent (lastClapTimeRef m) ticks (monitor m ticks).
Proof.
  revert m; induction ticks as [|tk ticks IH]; intros m.
  - reflexivity.
  - unfold monitorAfter, previousEvent in *.
    cbn [fold_left monitor combine filter map snd fst].
    rewrite IH, tick_lastClapTimeRef.
    destruct (clap (tick m tk)); cbn [filter map snd fst].
    + rewrite last_cons. reflexivity.
    + reflexivity.
Qed.

(** C4 (as amended). For every sequence of sampling ticks, a ClapEvent is
    emitted on a tick if and only if that tick's normalized level exceeds
    0.8 and MORE THAN 1000 ms have elapsed since the previously emitted
    event (since the initial timestamp 0 when there was none); the
    last-accepted timestamp after the tick is the tick's time when an
    event was emitted and is unchanged otherwise. *)
Theorem C4_clap_iff_loud_and_cooled_down
  (before : list Tick) (tk : Tick) (rest : list Tick) :
  let emitted := monitor initialMonitor (before ++ tk :: rest) in
  let previous := previousEvent 0 before (monitor initialMonitor before) in
  (nth (length before) emitted false = true <->
     (8 # 10 < normalizedLevel (frequencyData tk))%Q
     /\ time tk - previous > 1000)
  /\ lastClapTimeRef (monitorAfter initialMonitor (before ++ [tk])) =
     if nth (length before) emitted false then time tk else previous.
Proof.
  intros emitted previous. subst emitted previous.
  pose proof (lastClapTimeRef_previousEvent initialMonitor before) as Hprev.
  cbn [lastClapTimeRef initialMonitor] in Hprev. rewrite <- Hprev.
  rewrite monitor_app.
  rewrite app_nth2 by (rewrite monitor_length; lia).
  rewrite monitor_length, Nat.sub_diag. cbn [monitor nth].
  split.
  - apply (tick_clap (monitorAfter initialMonitor before) tk).
  - unfold monitorAfter. rewrite fold_left_app. cbn [fold_left].
    apply tick_lastClapTimeRef.
Qed.

(** *** Rounding does not matter *)

(** With the 128 bins of the analyser ([fftSize = 256]) the comparison
    made in binary64 arithmetic decides exactly as the rational one, for
    every possible byte sum. *)

Definition level_of_sum_double (s : Z) : PrimFloat.float :=
  PrimFloat.div (PrimFloat.div (number s) (number 128)) (number 255).

Definition level_of_sum (s : Z) : Q :=
  (inject_Z s / inject_Z 128 / inject_Z 255)%Q.

Definition agree (s : Z) : bool :=
  Bool.eqb (PrimFloat.ltb clapThreshold_double (level_of_sum_double s))
           (gtQ (level_of_sum s) clapThreshold).

Fixpoint all_from (n : nat) (s : Z) (p : Z -> bool) : bool :=
  match n with
  | O => true
  | S k => p s && all_from k (s + 1) p
  end.

Lemma all_from_spec (n : nat) (s0 : Z) (p : Z -> bool) :
  all_from n s0 p = true ->
  forall s, s0 <= s < s0 + Z.of_nat n -> p s = true.
Proof.
  revert s0; induction n as [|k IH]; intros s0 H s Hs; [lia|].
  cbn [all_from] in H. apply andb_true_iff in H as [H0 H1].
  destruct (Z.eq_dec s s0) as [->|Hne]; [exact H0|].
  apply (IH (s0 + 1) H1). lia.
Qed.

(** The largest sum of 128 bytes. *)
Definition fullScale : Z := 255 * 128.

Lemma agree_up_to_full_scale :
  all_from (Z.to_nat (fullScale + 1)) 0 agree = true.
Proof. vm_compute. reflexivity. Qed.

Lemma sum_shift (l : list Z) (a : Z) :
  fold_left (fun acc val => acc + val) l a
  = a + fold_left (fun acc val => acc + val) l 0.
Proof.
  revert a; induction l as [|x l IH]; intros a; cbn [fold_left]; [lia|].
  rewrite (IH (a + x)), (IH (0 + x)). lia.
Qed.

Lemma sum_bytes (l : list Z) :
  Forall (fun b => 0 <= b <= 255) l ->
  0 <= sum l <= 255 * Z.of_nat (length l).
Proof.
  unfold sum. induction 1 as [|x l Hx Hl IH]; [cbn; lia|].
  cbn [fold_left length]. cbv beta in Hx. rewrite sum_shift.
  rewrite Nat2Z.inj_succ. lia.
Qed.

Lemma double_comparison_exact (dataArray : list Z) :
  length dataArray = 128%nat ->
  Forall (fun b => 0 <= b <= 255) dataArray ->
  PrimFloat.ltb clapThreshold_double (normalizedLevel_double dataArray)
  = gtQ (normalizedLevel dataArray) clapThreshold.
Proof.
  intros L B. pose proof (sum_bytes dataArray B) as S. rewrite L in S.
  pose proof (all_from_spec _ _ _ agree_up_to_full_scale (sum dataArray)) as A.
  rewrite Z2Nat.id in A by (unfold fullScale; lia).
  unfold agree, level_of_sum_double, level_of_sum in A.
  unfold normalizedLevel_double, normalizedLevel. rewrite L.
  change (Z.of_nat 128) with 128 in *.
  apply Bool.eqb_prop. apply A. unfold fullScale. lia.
Qed.

Definition loud : list Z := repeat 255 128.

(** C4 as stated fails at the boundary: a loud tick exactly 1000 ms after
    an emitted event satisfies "level above 0.8 and at least 1000 ms
    elapsed", yet no event is emitted on it. *)
Lemma C4_exactly_1000ms_not_emitted :
  let t1 := mkTick loud 1700000000000 in
  let t2 := mkTick loud 1700000001000 in
  monitor initialMonitor [t1; t2] = [true; false]
  /\ ~ (nth 1 (monitor initialMonitor [t1; t2]) false = true <->
        (8 # 10 < normalizedLevel (frequencyData t2))%Q
        /\ time t2 - time t1 >= 1000).
Proof.
  split; [vm_compute; reflexivity|].
  intros [_ H].
  assert (E : nth 1 (monitor initialMonitor
                       [mkTick loud 1700000000000; mkTick loud 1700000001000])
                false = false) by (vm_compute; reflexivity).
  rewrite E in H. 
  assert (false = true); [|discriminate].
  apply H. split; [vm_compute; reflexivity | vm_compute; discriminate].
Qed.

End ClapMonitor.

(** ** The recognition loop *)

Section RecognitionLoop.

Import SignboardReader.

Definition say (text language : jsstring) : Utterance :=
  mkUtterance text language (9 # 10) (8 # 10).

(** The engine's call log after one more utterance (nothing is logged
    where the browser has no speech engine). *)
Definition spoken_after (w : World) (u : Utterance)
  : option (list Utterance) :=
  option_map (fun calls => calls ++ [u]) (speechSynthesis w).

Ltac world_ops :=
  unfold processImage_catch, updateStatus, speakStatus, spoken_after, say
    in *.

(** Both cases of the speech engine: present or absent. *)
Ltac by_speech w :=
  let E := fresh "E" in
  destruct (speechSynthesis w) eqn:E; cbn; rewrite ?E; cbn; rewrite ?E;
  repeat split; reflexivity.

Lemma speakStatus_spoken (text language : jsstring) (w : World) :
  speechSynthesis (speakStatus text language w) =
  spoken_after w (say text language).
Proof. world_ops. by_speech w. Qed.

(** *** Rendering touches neither the state nor the speech log *)

Lemma cameraView_keeps (w : World) :
  state (cameraView w) = state w
  /\ speechSynthesis (cameraView w) = speechSynthesis w
  /\ processingTimeoutRef (cameraView w) = processingTimeoutRef w
  /\ pending (cameraView w) = pending w
  /\ timers (cameraView w) = timers w.
Proof.
  unfold cameraView.
  destruct (isActive (state w)); [|destruct (cameraRef w);
    [destruct (cameraExit w)|]]; repeat split; reflexivity.
Qed.

Lemma autoStartEffect_keeps (w : World) :
  state (autoStartEffect w) = state w
  /\ speechSynthesis (autoStartEffect w) = speechSynthesis w
  /\ processingTimeoutRef (autoStartEffect w) = processingTimeoutRef w
  /\ pending (autoStartEffect w) = pending w.
Proof.
  unfold autoStartEffect.
  destruct (Captured_eqb _ _); [repeat split; reflexivity|].
  destruct (effectTimer w); cbn;
    destruct (isActive (state w) && negb (isProcessing (state w)));
    repeat split; reflexivity.
Qed.

Lemma render_keeps (w : World) :
  state (render w) = state w
  /\ speechSynthesis (render w) = speechSynthesis w
  /\ processingTimeoutRef (render w) = processingTimeoutRef w
  /\ pending (render w) = pending w.
Proof.
  unfold render.
  destruct (autoStartEffect_keeps (cameraView w)) as (A & B & C & D).
  destruct (cameraView_keeps w) as (A' & B' & C' & D' & _).
  repeat split; congruence.
Qed.

(** A settled recognition resumes the suspended call and renders. *)
Lemma step_RecognitionSettled (w w' : World) (t id : Z) (cy : Cycle)
  (r : RecognitionResult) :
  findCycle id w = Some cy ->
  step w (t, RecognitionSettled id r) = Some w' ->
  exists w0,
    state w0 = state w /\ speechSynthesis w0 = speechSynthesis w
    /\ w' = render (processImage_resume (closure cy) r w0).
Proof.
  unfold step, dispatch; cbn [fst snd].
  intros F.
  destruct (_ && _); [|discriminate].
  unfold findCycle in *. cbn [pending with_now]. rewrite F.
  cbn [option_map]. intros [= <-].
  eexists; split; [|split; [|reflexivity]]; reflexivity.
Qed.

(** *** The three ways a cycle ends *)

Lemma resume_found (c : Captured) (text : jsstring) (w : World) :
  trim text <> [] ->
  let w' := processImage_resume c (Recognized text) w in
  state w' = mkState (isActive (state w)) false (trim text)
               (currentLanguage (state w)) (foundStatus (trim text))
               (error (state w))
  /\ speechSynthesis w' =
     spoken_after w (say (trim text) (ttsLanguage (c_currentLanguage c)))
  /\ timers w' = timers w ++ [mkTimer (nextTimerId w) (now w + 3000) (Rescan c)]
  /\ processingTimeoutRef w' = Some (nextTimerId w).
Proof.
  intros H. apply length_pos_nonempty in H.
  cbn [processImage_resume]. rewrite H.
  world_ops. by_speech w.
Qed.

Lemma resume_nothing (c : Captured) (text : jsstring) (w : World) :
  trim text = [] ->
  let w' := processImage_resume c (Recognized text) w in
  state w' = mkState (isActive (state w)) false (recognizedText (state w))
               (currentLanguage (state w))
               "No text found. Try adjusting the camera position."
               (error (state w))
  /\ speechSynthesis w' =
     spoken_after w
       (say "No text found. Try adjusting the camera position." "en-US")
  /\ timers w' = timers w ++ [mkTimer (nextTimerId w) (now w + 1500) (Rescan c)]
  /\ processingTimeoutRef w' = Some (nextTimerId w).
Proof.
  intros H. cbn [processImage_resume]. rewrite H. cbn [length Nat.ltb Nat.leb].
  world_ops. by_speech w.
Qed.

Definition failureMessage (e : Thrown) : jsstring :=
  match e with
  | ErrorObject message => message
  | OtherValue => "Unknown error occurred"
  end.

Lemma catch_failed (e : Thrown) (w : World) :
  let w' := processImage_catch e w in
  state w' = mkState (isActive (state w)) false (recognizedText (state w))
               (currentLanguage (state w))
               "Error during text recognition. Please try again."
               (Some (failureMessage e))
  /\ speechSynthesis w' =
     spoken_after w
       (say "Error during text recognition. Please try again." "en-US")
  /\ timers w' = timers w
  /\ processingTimeoutRef w' = processingTimeoutRef w.
Proof.
  world_ops. destruct e; by_speech w.
Qed.

(** The catch block leaves the clock, the timer counter and the
    bookkeeping of the effect alone. *)
Lemma catch_frame (e : Thrown) (w : World) :
  let w' := processImage_catch e w in
  now w' = now w /\ nextTimerId w' = nextTimerId w
  /\ rendered w' = rendered w /\ effectTimer w' = effectTimer w.
Proof. world_ops. by_speech w. Qed.

Lemma cameraView_rendered (w : World) : rendered (cameraView w) = rendered w.
Proof.
  unfold cameraView.
  destruct (isActive (state w)); [|destruct (cameraRef w);
    [destruct (cameraExit w)|]]; reflexivity.
Qed.

Lemma cameraView_nextTimerId (w : World) :
  nextTimerId (cameraView w) = nextTimerId w.
Proof.
  unfold cameraView.
  destruct (isActive (state w)); [|destruct (cameraRef w);
    [destruct (cameraExit w)|]]; reflexivity.
Qed.

Lemma cameraView_now (w : World) : now (cameraView w) = now w.
Proof.
  unfold cameraView.
  destruct (isActive (state w)); [|destruct (cameraRef w);
    [destruct (cameraExit w)|]]; reflexivity.
Qed.

(** When a render finds the session active and idle while the previous
    render saw a cycle in progress, the effect is re-run and sets a timer
    that calls processImage 1000 ms later. *)
Lemma autoStartEffect_schedules (w : World) (n t : Z) (l : Language) :
  isActive (state w) = true ->
  isProcessing (state w) = false ->
  c_isProcessing (rendered w) = true ->
  nextTimerId w = n -> now w = t -> currentLanguage (state w) = l ->
  In (mkTimer n (t + 1000) (AutoStart (mkCaptured true false l)))
     (timers (autoStartEffect w)).
Proof.
  intros A P R <- <- <-. unfold autoStartEffect.
  assert (E : Captured_eqb (capture_state (state w)) (rendered w) = false).
  { unfold Captured_eqb, capture_state. cbn. rewrite A, P, R.
    destruct (c_isActive (rendered w)); reflexivity. }
  rewrite E. unfold capture_state.
  destruct (effectTimer w); cbn; rewrite A, P; cbn;
    apply in_or_app; right; left; reflexivity.
Qed.

(** *** Scenarios *)

(** A frame delivered by the camera. *)
Definition frame : CaptureResult :=
  CaptureResolved (Some (lit "data:image/png;base64,iVBORw0KGgo=")).

Definition the (o : option World) : World :=
  match o with Some w => w | None => initialWorld end.

(** Activation at 2 s; the auto-start timer fires at 3 s and cycle 0 is
    sent to recognition; a second clap at 3.5 s deactivates the session
    while cycle 0 is still being recognised; the camera view is gone at
    4 s. *)
Definition deactivated_while_recognizing : list (Z * Event) :=
  [(2000, Clap); (3000, TimerFired 1 frame); (3500, Clap);
   (4000, CameraExited)].

Definition world_deactivated : World :=
  Eval vm_compute in the (run initialWorld deactivated_while_recognizing).

Definition world_stale_result : World :=
  Eval vm_compute in
    the (step world_deactivated
           (6000, RecognitionSettled 0 (Recognized "EXIT 12B"))).

(** *** C1: a result arriving after deactivation *)

(** The claim, for one arriving result: nothing of it reaches the state
    or the speech engine. *)
Definition result_discarded (w w' : World) : Prop :=
  recognizedText (state w') = recognizedText (state w)
  /\ status (state w') = status (state w)
  /\ isProcessing (state w') = isProcessing (state w)
  /\ error (state w') = error (state w)
  /\ speechSynthesis w' = speechSynthesis w.

(** C1 as stated fails: the session is deactivated while cycle 0 is in
    the Recognizing step, and when the result "EXIT 12B" arrives it is
    written to the state and spoken. *)
Lemma C1_stale_result_is_applied :
  run initialWorld deactivated_while_recognizing = Some world_deactivated
  /\ isActive (state world_deactivated) = false
  /\ findCycle 0 world_deactivated = Some (mkCycle 0 (mkCaptured true false eng))
  /\ step world_deactivated
       (6000, RecognitionSettled 0 (Recognized "EXIT 12B"))
     = Some world_stale_result
  /\ recognizedText (state world_stale_result) = lit "EXIT 12B"
  /\ status (state world_stale_result) = lit "Found text: EXIT 12B"
  /\ ~ result_discarded world_deactivated world_stale_result.
Proof.
  repeat split; try (vm_compute; reflexivity).
  intros (H & _). vm_compute in H. discriminate H.
Qed.

(** C1 (as amended). If the session is deactivated while a cycle is in
    the Recognizing step, the in-flight call is not aborted and its
    eventual result is applied like any other: processing becomes false
    and status is set from the result; non-empty trimmed text is stored
    in recognizedText and spoken in the cycle's locale; for empty text the
    "No text found" status is spoken; on failure error is set to the
    failure's message and the error status is spoken. Only active is left
    as deactivation set it. *)
Theorem C1_result_applied_after_deactivation
  (w w' : World) (t id : Z) (cy : Cycle) (r : RecognitionResult) :
  isActive (state w) = false ->
  findCycle id w = Some cy ->
  step w (t, RecognitionSettled id r) = Some w' ->
  isActive (state w') = false
  /\ isProcessing (state w') = false
  /\ match r with
     | Recognized text =>
         if truthy (trim text) then
           recognizedText (state w') = trim text
           /\ status (state w') = foundStatus (trim text)
           /\ error (state w') = error (state w)
           /\ speechSynthesis w' =
              spoken_after w
                (say (trim text)
                     (ttsLanguage (c_currentLanguage (closure cy))))
         else
           recognizedText (state w') = recognizedText (state w)
           /\ status (state w') =
              lit "No text found. Try adjusting the camera position."
           /\ error (state w') = error (state w)
           /\ speechSynthesis w' =
              spoken_after w
                (say "No text found. Try adjusting the camera position."
                     "en-US")
     | RecognitionRejected e =>
         recognizedText (state w') = recognizedText (state w)
         /\ status (state w') =
            lit "Error during text recognition. Please try again."
         /\ error (state w') = Some (failureMessage e)
         /\ speechSynthesis w' =
            spoken_after w
              (say "Error during text recognition. Please try again."
                   "en-US")
     end.
Proof.
  intros Hoff Hcy Hstep.
  destruct (step_RecognitionSettled w w' t id cy r Hcy Hstep)
    as (w0 & Hst & Hsp & ->).
  destruct (render_keeps (processImage_resume (closure cy) r w0))
    as (-> & -> & _).
  unfold spoken_after. rewrite <- Hst, <- Hsp in *.
  fold (spoken_after w0).
  destruct r as [text|e].
  - rewrite truthy_length.
    destruct (0 <? length (trim text))%nat eqn:L.
    + apply length_pos_nonempty in L.
      destruct (resume_found (closure cy) text w0 L) as (-> & -> & _).
      cbn. rewrite Hoff. repeat split; reflexivity.
    + assert (E : trim text = []).
      { destruct (trim text); [reflexivity|discriminate L]. }
      destruct (resume_nothing (closure cy) text w0 E) as (-> & -> & _).
      cbn. rewrite Hoff. repeat split; reflexivity.
  - cbn [processImage_resume].
    destruct (catch_failed e w0) as (-> & -> & _).
    cbn. rewrite Hoff. repeat split; reflexivity.
Qed.

(** The scenario above satisfies the hypotheses of the amended C1. *)
Lemma C1_result_applied_after_deactivation_witness :
  isActive (state world_deactivated) = false
  /\ recognizedText (state world_stale_result) = trim (lit "EXIT 12B").
Proof.
  split; [reflexivity|].
  exact (proj1 (proj2 (proj2
    (C1_result_applied_after_deactivation
       world_deactivated world_stale_result 6000 0
       (mkCycle 0 (mkCaptured true false eng)) (Recognized "EXIT 12B")
       eq_refl eq_refl eq_refl)))).
Defined.

(** *** The two successful endings of a suspended call *)

(** The continuation of a call whose closure is [c], on a text that is
    not empty after trimming: one speak call with the trimmed text and the
    locale of the closure's language, recognizedText, the status line and
    isProcessing. *)
Lemma found_text_applied_by_resume (c : Captured) (text : jsstring) (w : World) :
  trim text <> [] ->
  let cleanText := trim text in
  let locale := match c_currentLanguage c with
                | eng => lit "en-US"
                | hin => lit "hi-IN"
                | tel => lit "te-IN"
                end in
  let w' := processImage_resume c (Recognized text) w in
  speechSynthesis w' =
    option_map (fun calls => calls ++ [mkUtterance cleanText locale (9 # 10) (8 # 10)])
               (speechSynthesis w)
  /\ recognizedText (state w') = cleanText
  /\ status (state w') =
       lit "Found text: " ++ firstn 50 cleanText
         ++ (if (50 <? length cleanText)%nat then lit "..." else [])
  /\ isProcessing (state w') = false.
Proof.
  intros H cleanText locale w'.
  destruct (resume_found c text w H) as (St & Sp & _).
  fold w' in St, Sp. rewrite St, Sp.
  unfold spoken_after, say, ttsLanguage. subst locale cleanText.
  destruct (c_currentLanguage c); repeat split; reflexivity.
Qed.

(** The scan "  EXIT 12B " gives the status "Found text: EXIT 12B". *)
Lemma found_text_applied_by_resume_example :
  trim (lit "  EXIT 12B ") <> []
  /\ status (state (processImage_resume (mkCaptured true false eng)
                      (Recognized "  EXIT 12B ") world_deactivated))
     = lit "Found text: EXIT 12B".
Proof.
  assert (H : trim (lit "  EXIT 12B ") <> []) by (vm_compute; discriminate).
  split; [exact H|].
  exact (proj1 (proj2 (proj2
    (found_text_applied_by_resume (mkCaptured true false eng)
       "  EXIT 12B " world_deactivated H)))).
Defined.

(** The continuation of a call whose closure is [c], on a text that is
    empty after trimming: the "No text found" status is set and spoken
    (not the recognised text), isProcessing is cleared and a rescan is set
    1500 ms ahead and stored in processingTimeoutRef. *)
Lemma no_text_applied_by_resume (c : Captured) (text : jsstring) (w : World) :
  trim text = [] ->
  let noText := lit "No text found. Try adjusting the camera position." in
  let w' := processImage_resume c (Recognized text) w in
  status (state w') = noText
  /\ isProcessing (state w') = false
  /\ speechSynthesis w' =
       option_map (fun calls => calls ++ [mkUtterance noText "en-US" (9 # 10) (8 # 10)])
                  (speechSynthesis w)
  /\ noText <> text
  /\ timers w' = timers w ++ [mkTimer (nextTimerId w) (now w + 1500) (Rescan c)]
  /\ processingTimeoutRef w' = Some (nextTimerId w).
Proof.
  intros H noText w'.
  destruct (resume_nothing c text w H) as (St & Sp & Tm & Rf).
  fold w' in St, Sp, Tm, Rf. rewrite St, Sp, Tm, Rf.
  repeat split.
  intros E. rewrite <- E in H. vm_compute in H. discriminate H.
Qed.

(** Language hin, recognised text of two spaces: the retry is due
    1500 ms after the result (which arrives at 4000). *)
Lemma no_text_applied_by_resume_example :
  trim (lit "  ") = []
  /\ timers (processImage_resume (mkCaptured true false hin)
               (Recognized "  ") world_deactivated)
     = [mkTimer 2 5500 (Rescan (mkCaptured true false hin))].
Proof.
  split; [reflexivity|].
  exact (proj1 (proj2 (proj2 (proj2 (proj2
    (no_text_applied_by_resume (mkCaptured true false hin) "  "
       world_deactivated eq_refl)))))).
Defined.

(** The rescan after a successful scan is set 3000 ms ahead. *)
Lemma rescan_after_3000 (c : Captured) (text : jsstring) (w : World) :
  trim text <> [] ->
  let w' := processImage_resume c (Recognized text) w in
  timers w' = timers w ++ [mkTimer (nextTimerId w) (now w + 3000) (Rescan c)]
  /\ processingTimeoutRef w' = Some (nextTimerId w).
Proof. intros H. apply (resume_found c text w H). Qed.

(** *** C5: the activation toggle *)

(** C5 (as amended). On a clap while active is false the toggle sets
    active to true, clears error, sets the "Camera activated!" status and
    announces activation, and leaves recognizedText, processing and the
    timers as they are. On a clap while active is true it clears the
    timer held in processingTimeoutRef, forces processing to false, clears
    recognizedText, sets the "Deactivated" status and announces
    deactivation. *)
Theorem C5_clap_toggles (w : World) :
  let w' := handleClapDetected w in
  if isActive (state w) then
    isActive (state w') = false
    /\ isProcessing (state w') = false
    /\ recognizedText (state w') = []
    /\ status (state w') = lit "Deactivated. Clap to activate again."
    /\ timers w' =
         match processingTimeoutRef w with
         | Some id => filter (fun tm => negb (timerId tm =? id)) (timers w)
         | None => timers w
         end
    /\ speechSynthesis w' =
         spoken_after w (say "SignBoard Reader deactivated." "en-US")
  else
    isActive (state w') = true
    /\ isProcessing (state w') = isProcessing (state w)
    /\ recognizedText (state w') = recognizedText (state w)
    /\ error (state w') = None
    /\ status (state w') = lit "Camera activated! Point at text to read."
    /\ timers w' = timers w
    /\ speechSynthesis w' =
         spoken_after w
           (say "SignBoard Reader activated. Point camera at text." "en-US").
Proof.
  unfold handleClapDetected.
  destruct (isActive (state w)); cbn [negb]; world_ops.
  - destruct (processingTimeoutRef w) eqn:R, (speechSynthesis w) eqn:E;
      cbn; rewrite ?R, ?E; cbn; rewrite ?R, ?E; repeat split; reflexivity.
  - by_speech w.
Qed.

(** C5 as stated fails: after the stale result of C1 has been stored,
    the session is inactive with a non-empty recognizedText, and the
    activating clap does not reset it. *)
Lemma C5_activation_keeps_recognizedText :
  isActive (state world_stale_result) = false
  /\ isActive (state (handleClapDetected world_stale_result)) = true
  /\ recognizedText (state (handleClapDetected world_stale_result))
     = lit "EXIT 12B"
  /\ recognizedText (state (handleClapDetected world_stale_result)) <> [].
Proof. repeat split; vm_compute; discriminate. Qed.

(** *** The guard of processImage *)

(** A call whose closure saw the session inactive, or a cycle in
    progress, returns at the guard and changes nothing. *)
Lemma processImage_guard (c : Captured) (cap : CaptureResult) (w : World) :
  c_isActive c = false \/ c_isProcessing c = true ->
  processImage c cap w = w.
Proof.
  unfold processImage. intros [-> | ->]; [reflexivity|].
  destruct (c_isActive c); reflexivity.
Qed.

(** In particular the closure of the current render is a no-op while
    [state] says inactive or processing. *)
Lemma processImage_current_guard (cap : CaptureResult) (w : World) :
  isActive (state w) = false \/ isProcessing (state w) = true ->
  processImage (capture_state (state w)) cap w = w.
Proof. intros H. apply processImage_guard. exact H. Qed.

(** A closure created while the session was active and idle passes the
    guard whenever the camera handle is set, whatever [state] says at the
    time of the call. *)
Lemma processImage_stale_closure_starts (c : Captured) (w : World) :
  c_isActive c = true -> c_isProcessing c = false -> cameraRef w = true ->
  let w' := processImage c frame w in
  isProcessing (state w') = true
  /\ isActive (state w') = isActive (state w)
  /\ pending w' = pending w ++ [mkCycle (nextCycleId w) c].
Proof.
  intros A P C. unfold processImage. rewrite A, P, C. cbn.
  world_ops. by_speech w.
Qed.

(** The rescan callback tests the [isActive] its closure captured. *)
Lemma rescan_reads_captured_flag (c : Captured) (w : World) :
  c_isActive c = true -> c_isProcessing c = false -> cameraRef w = true ->
  isActive (state w) = false ->
  let w' := runCallback (Rescan c) frame w in
  isProcessing (state w') = true
  /\ cyclesInFlight w' = S (cyclesInFlight w).
Proof.
  intros A P C I. cbn [runCallback]. rewrite A.
  destruct (processImage_stale_closure_starts c w A P C) as (H1 & _ & H3).
  split; [exact H1|].
  unfold cyclesInFlight. rewrite H3, length_app. cbn. lia.
Qed.

(** *** Runs of the loop *)

(** Activation at 2 s, first cycle started by the auto-start timer at
    3 s. *)
Definition first_cycle : list (Z * Event) :=
  [(2000, Clap); (3000, TimerFired 1 frame)].

Definition world_first_cycle : World :=
  Eval vm_compute in the (run initialWorld first_cycle).

(** ... the recognition service fails at 4 s. *)
Definition world_failed : World :=
  Eval vm_compute in
    the (step world_first_cycle
           (4000, RecognitionSettled 0
                    (RecognitionRejected (ErrorObject "Network error")))).

Definition world_retried : World :=
  Eval vm_compute in the (step world_failed (5000, TimerFired 2 frame)).

(** C2, evaluated on a failing recognition while active. The catch block
    does what the claim says (error, status, processing, spoken error
    status, no rescan timer of its own), but the render that follows sees
    isProcessing change, re-runs the auto-start effect and schedules
    processImage 1000 ms later: a new cycle is started from the failure
    without any user action. *)
Theorem C2_cycle_restarts_after_recognition_failure :
  run initialWorld first_cycle = Some world_first_cycle
  /\ isActive (state world_first_cycle) = true
  /\ cyclesInFlight world_first_cycle = 1%nat
  /\ step world_first_cycle
       (4000, RecognitionSettled 0
                (RecognitionRejected (ErrorObject "Network error")))
     = Some world_failed
  /\ error (state world_failed) = Some (lit "Network error")
  /\ status (state world_failed)
     = lit "Error during text recognition. Please try again."
  /\ isProcessing (state world_failed) = false
  /\ processingTimeoutRef world_failed = None
  /\ timers world_failed
     = [mkTimer 2 5000 (AutoStart (mkCaptured true false eng))]
  /\ step world_failed (5000, TimerFired 2 frame) = Some world_retried
  /\ isProcessing (state world_retried) = true
  /\ pending world_retried = [mkCycle 1 (mkCaptured true false eng)].
Proof. repeat split; vm_compute; reflexivity. Qed.

(** A failing capture ends in the same turn that set isProcessing, so
    the next render sees it unchanged, the effect is not re-run and
    nothing is scheduled. *)
Lemma capture_failure_schedules_nothing :
  let w := the (run initialWorld
                  [(2000, Clap); (3000, TimerFired 1 (CaptureResolved None))]) in
  error (state w) = Some (lit "Failed to capture image")
  /\ status (state w) = lit "Error during text recognition. Please try again."
  /\ isProcessing (state w) = false
  /\ timers w = [] /\ pending w = [].
Proof. repeat split; vm_compute; reflexivity. Qed.

(** The same in general: whenever recognition fails in an active session
    whose last render saw the cycle in progress, the step leaves a timer
    that calls processImage 1000 ms later. *)
Lemma failure_schedules_auto_start (w w' : World) (t id : Z) (cy : Cycle)
  (e : Thrown) :
  isActive (state w) = true ->
  isProcessing (state w) = true ->
  rendered w = capture_state (state w) ->
  findCycle id w = Some cy ->
  step w (t, RecognitionSettled id (RecognitionRejected e)) = Some w' ->
  In (mkTimer (nextTimerId w) (t + 1000)
        (AutoStart (mkCaptured true false (currentLanguage (state w)))))
     (timers w').
Proof.
  intros A P R F.
  unfold step, dispatch; cbn [fst snd].
  destruct (_ && _); [|discriminate].
  unfold findCycle in *. cbn [pending with_now]. rewrite F.
  cbn [option_map processImage_resume]. intros [= <-].
  match goal with |- context [processImage_catch e ?w0] => set (w1 := w0) end.
  destruct (catch_failed e w1) as (St & _).
  destruct (catch_frame e w1) as (Nw & Nx & Rd & Ef).
  unfold render.
  apply autoStartEffect_schedules.
  - destruct (cameraView_keeps (processImage_catch e w1)) as (-> & _).
    rewrite St. exact A.
  - destruct (cameraView_keeps (processImage_catch e w1)) as (-> & _).
    rewrite St. reflexivity.
  - rewrite cameraView_rendered, Rd. subst w1. cbn. rewrite R. exact P.
  - rewrite cameraView_nextTimerId, Nx. reflexivity.
  - rewrite cameraView_now, Nw. reflexivity.
  - destruct (cameraView_keeps (processImage_catch e w1)) as (-> & _).
    rewrite St. reflexivity.
Qed.

(** ... or the recognition succeeds at 4 s. *)
Definition text_found : list (Z * Event) :=
  first_cycle ++ [(4000, RecognitionSettled 0 (Recognized "EXIT 12B"))].

Definition world_text_found : World :=
  Eval vm_compute in the (run initialWorld text_found).

(** The auto-start timer (due at 5 s) starts cycle 1, which is recognised
    by 6 s. *)
Definition second_cycle_done : list (Z * Event) :=
  text_found ++ [(5000, TimerFired 3 frame);
                 (6000, RecognitionSettled 1 (Recognized "EXIT 12B"))].

Definition world_second_cycle_done : World :=
  Eval vm_compute in the (run initialWorld second_cycle_done).

(** C3, evaluated. After the first successful cycle two timers are
    outstanding at once, the 3000 ms rescan held in processingTimeoutRef
    and the 1000 ms timer of the auto-start effect. After the second
    successful cycle processingTimeoutRef has been overwritten with the
    new rescan (timer 4) while the previous rescan (timer 2) is still
    pending: it was not cancelled, and three timers are outstanding. *)
Theorem C3_several_timers_outstanding :
  run initialWorld text_found = Some world_text_found
  /\ timers world_text_found
     = [mkTimer 2 7000 (Rescan (mkCaptured true false eng));
        mkTimer 3 5000 (AutoStart (mkCaptured true false eng))]
  /\ pendingTimers world_text_found = 2%nat
  /\ run initialWorld second_cycle_done = Some world_second_cycle_done
  /\ processingTimeoutRef world_second_cycle_done = Some 4
  /\ timers world_second_cycle_done
     = [mkTimer 2 7000 (Rescan (mkCaptured true false eng));
        mkTimer 4 9000 (Rescan (mkCaptured true false eng));
        mkTimer 5 7000 (AutoStart (mkCaptured true false eng))]
  /\ pendingTimers world_second_cycle_done = 3%nat.
Proof. repeat split; vm_compute; reflexivity. Qed.

(** The auto-start timer starts cycle 1 at 5 s; it is still being
    recognised when the first cycle's rescan timer fires at 7 s. *)
Definition overlapping_cycles : list (Z * Event) :=
  text_found ++ [(5000, TimerFired 3 frame); (7000, TimerFired 2 frame)].

Definition world_second_cycle : World :=
  Eval vm_compute in
    the (step world_text_found (5000, TimerFired 3 frame)).

Definition world_overlapping : World :=
  Eval vm_compute in the (run initialWorld overlapping_cycles).

(** C6, evaluated. The rescan timer of cycle 0 calls the processImage
    closure of cycle 0, whose captured isProcessing is false; it passes
    the guard although cycle 1 is processing, and two cycles are in
    flight. *)
Theorem C6_two_cycles_in_flight :
  step world_text_found (5000, TimerFired 3 frame) = Some world_second_cycle
  /\ isProcessing (state world_second_cycle) = true
  /\ pending world_second_cycle = [mkCycle 1 (mkCaptured true false eng)]
  /\ step world_second_cycle (7000, TimerFired 2 frame)
     = Some world_overlapping
  /\ run initialWorld overlapping_cycles = Some world_overlapping
  /\ isProcessing (state world_overlapping) = true
  /\ pending world_overlapping
     = [mkCycle 1 (mkCaptured true false eng);
        mkCycle 2 (mkCaptured true false eng)]
  /\ cyclesInFlight world_overlapping = 2%nat.
Proof. repeat split; vm_compute; reflexivity. Qed.

(** Cycle 1 completes at 6 s, overwriting processingTimeoutRef; the
    session is deactivated at 6.8 s, which clears the timer held in the
    ref (timer 4) and, by the effect's cleanup, the auto-start timer
    (timer 5), while the camera view is in its exit transition until
    7.3 s. Timer 2 is still pending. *)
Definition deactivated_before_rescan : list (Z * Event) :=
  second_cycle_done ++ [(6800, Clap)].

Definition world_before_rescan : World :=
  Eval vm_compute in the (run initialWorld deactivated_before_rescan).

Definition world_after_rescan : World :=
  Eval vm_compute in
    the (step world_before_rescan (7000, TimerFired 2 frame)).

(** C8, evaluated. The rescan is set 3000 ms ahead (at 4 s, due at 7 s),
    but the next capture is the auto-start timer's, at 5 s; and when the
    rescan timer fires the session is inactive, yet its callback, which
    tests the isActive captured when cycle 0 began, starts a cycle. *)
Theorem C8_rescan_starts_cycle_while_inactive :
  findTimer 2 world_text_found
    = Some (mkTimer 2 (4000 + 3000) (Rescan (mkCaptured true false eng)))
  /\ findTimer 3 world_text_found
    = Some (mkTimer 3 (4000 + 1000) (AutoStart (mkCaptured true false eng)))
  /\ run initialWorld deactivated_before_rescan = Some world_before_rescan
  /\ isActive (state world_before_rescan) = false
  /\ cyclesInFlight world_before_rescan = 0%nat
  /\ timers world_before_rescan
     = [mkTimer 2 7000 (Rescan (mkCaptured true false eng))]
  /\ step world_before_rescan (7000, TimerFired 2 frame)
     = Some world_after_rescan
  /\ isActive (state world_after_rescan) = false
  /\ isProcessing (state world_after_rescan) = true
  /\ pending world_after_rescan = [mkCycle 2 (mkCaptured true false eng)].
Proof. repeat split; vm_compute; reflexivity. Qed.

End RecognitionLoop.

(** ** The announcement sink *)

Section AnnouncementSink.

Import TextToSpeech.

(** The text an invocation of [speak] is about. *)
Definition textToSpeak (arg : option jsstring) (p : Props) : jsstring :=
  match arg with Some t => t | None => text p end.

(** C10. [speak] is a no-op for degenerate input: when speech synthesis
    is unsupported, or the text is empty or whitespace-only after
    trimming, it returns without cancelling the current utterance (the
    engine's queue is untouched), without queueing a new one and without
    changing the speaking/paused state. *)
Theorem C10_speak_degenerate_noop
  (arg : option jsstring) (p : Props) (s : Sink) :
  isSupported s = false \/ trim (textToSpeak arg p) = [] ->
  speak arg p s = s.
Proof.
  unfold speak, textToSpeak.
  intros [-> | ->]; [reflexivity|].
  cbn. rewrite orb_true_r. reflexivity.
Qed.

Definition speaking_sink : Sink :=
  {| isSpeaking := true; isPaused := false; isSupported := true;
     selectedVoice := None; speechRate := 9 # 10; speechVolume := 8 # 10;
     queue := [mkSpeechUtterance "EXIT 12B" "en-US" (9 # 10) (8 # 10) None];
     enginePaused := false; notified := [true] |}.

(** Speaking three spaces while "EXIT 12B" is playing changes nothing. *)
Lemma C10_speak_degenerate_noop_witness :
  trim (textToSpeak (Some (lit "   ")) (mkProps "EXIT 12B" SignboardReader.eng false)) = []
  /\ speak (Some (lit "   ")) (mkProps "EXIT 12B" SignboardReader.eng false) speaking_sink
     = speaking_sink.
Proof.
  split; [reflexivity|].
  apply (C10_speak_degenerate_noop (Some (lit "   "))
           (mkProps "EXIT 12B" SignboardReader.eng false) speaking_sink).
  right. reflexivity.
Defined.

(** Otherwise the current utterance is cancelled and exactly the new one
    is queued. *)
Lemma speak_replaces_queue (arg : option jsstring) (p : Props) (s : Sink) :
  isSupported s = true -> trim (textToSpeak arg p) <> [] ->
  queue (speak arg p s) =
    [mkSpeechUtterance (textToSpeak arg p) (languageMap (language p))
       (speechRate s) (speechVolume s) (selectedVoice s)]
  /\ isSpeaking (speak arg p s) = isSpeaking s
  /\ isPaused (speak arg p s) = isPaused s.
Proof.
  unfold speak, textToSpeak. intros -> H.
  destruct (trim _) eqn:E; [congruence|].
  cbn. repeat split; reflexivity.
Qed.

End AnnouncementSink.

(** * Further properties of the code *)

(** ** AudioDetector.tsx: spacing of clap events and the level *)

Section ClapSpacing.

Import AudioDetector.

(** The times of the events the monitor emits over [ticks], in order. *)
Definition emittedTimes (m : Monitor) (ticks : list Tick) : list Z :=
  map (fun p => time (fst p))
      (filter (fun p => snd p) (combine ticks (monitor m ticks))).

(** Each time is more than the cooldown after the one before it,
    starting from [prev]. *)
Fixpoint spaced (prev : Z) (l : list Z) : Prop :=
  match l with
  | [] => True
  | t :: r => t - prev > clapCooldown /\ spaced t r
  end.

Lemma emittedTimes_cons (m : Monitor) (tk : Tick) (rest : list Tick) :
  emittedTimes m (tk :: rest) =
  if clap (tick m tk)
  then time tk :: emittedTimes (after (tick m tk)) rest
  else emittedTimes (after (tick m tk)) rest.
Proof.
  unfold emittedTimes. cbn [monitor combine filter snd].
  destruct (clap (tick m tk)); reflexivity.
Qed.

Lemma emittedTimes_spaced (m : Monitor) (ticks : list Tick) :
  spaced (lastClapTimeRef m) (emittedTimes m ticks).
Proof.
  revert m; induction ticks as [|tk rest IH]; intros m; [exact I|].
  rewrite emittedTimes_cons.
  pose proof (IH (after (tick m tk))) as H.
  rewrite tick_lastClapTimeRef in H.
  destruct (clap (tick m tk)) eqn:C; [|exact H].
  split; [|exact H]. apply tick_clap in C. apply C.
Qed.

Lemma spaced_after (p prev : Z) (l : list Z) :
  p <= prev -> spaced prev l -> Forall (fun t => t - p > clapCooldown) l.
Proof.
  revert prev; induction l as [|t r IH]; intros prev Hp H; constructor.
  - destruct H as [H _]. unfold clapCooldown in *. lia.
  - destruct H as [H Hr]. apply (IH t); [unfold clapCooldown in *; lia|exact Hr].
Qed.

Lemma spaced_pairs (prev : Z) (l : list Z) :
  spaced prev l -> ForallOrdPairs (fun a b => b - a > clapCooldown) l.
Proof.
  revert prev; induction l as [|t r IH]; intros prev H; constructor.
  - destruct H as [_ Hr]. apply (spaced_after t t r); [lia|exact Hr].
  - destruct H as [_ Hr]. apply (IH t Hr).
Qed.

(** Whatever the samples and whatever the clock readings, any two clap
    events the monitor reports (not only consecutive ones) are more than
    1000 ms apart, and the first is reported at a clock reading above
    1000. *)
Theorem clap_events_more_than_cooldown_apart (ticks : list Tick) :
  ForallOrdPairs (fun earlier later => later - earlier > 1000)
                 (emittedTimes initialMonitor ticks)
  /\ Forall (fun t => t > 1000) (emittedTimes initialMonitor ticks).
Proof.
  pose proof (emittedTimes_spaced initialMonitor ticks) as H.
  split.
  - exact (spaced_pairs _ _ H).
  - pose proof (spaced_after 0 0 _ (Z.le_refl 0) H) as F.
    eapply Forall_impl; [|exact F]. cbv beta. unfold clapCooldown. lia.
Qed.

Lemma emittedTimes_in (m : Monitor) (ticks : list Tick) (t : Z) :
  In t (emittedTimes m ticks) -> In t (map time ticks).
Proof.
  revert m; induction ticks as [|tk rest IH]; intros m; [intros []|].
  rewrite emittedTimes_cons.
  destruct (clap (tick m tk)); cbn [In map].
  - intros [<-|H]; [left; reflexivity|right; exact (IH _ H)].
  - intros H. right. exact (IH _ H).
Qed.

Lemma spaced_span (prev t b : Z) (r : list Z) :
  spaced prev (t :: r) -> Forall (fun x => x <= b) (t :: r) ->
  t + 1000 * Z.of_nat (length r) <= b.
Proof.
  revert prev t; induction r as [|u r IH]; intros prev t H F.
  - inversion F; subst. cbn. lia.
  - destruct H as [_ H]. inversion F as [|? ? _ F']; subst.
    pose proof (IH t u H F') as B. destruct H as [G _].
    unfold clapCooldown in G. cbn [length]. rewrite Nat2Z.inj_succ. lia.
Qed.

(** Rate limit: over any stretch of sampling whose clock readings lie
    within [a, b], at most (b - a) / 1000 + 1 claps are reported, however
    loud the input is. *)
Theorem clap_rate_limited (ticks : list Tick) (a b : Z) :
  a <= b ->
  Forall (fun tk => a <= time tk <= b) ticks ->
  1000 * Z.of_nat (length (emittedTimes initialMonitor ticks))
    <= b - a + 1000.
Proof.
  intros Hab F.
  pose proof (emittedTimes_spaced initialMonitor ticks) as S.
  assert (R : Forall (fun x => a <= x <= b) (emittedTimes initialMonitor ticks)).
  { apply Forall_forall. intros x Hx. apply emittedTimes_in in Hx.
    apply in_map_iff in Hx as (tk & <- & Htk).
    rewrite Forall_forall in F. exact (F tk Htk). }
  destruct (emittedTimes initialMonitor ticks) as [|t r]; [cbn; lia|].
  assert (B : t + 1000 * Z.of_nat (length r) <= b).
  { apply (spaced_span _ _ _ _ S). eapply Forall_impl; [|exact R].
    cbv beta. lia. }
  inversion R as [|? ? Ht _]; subst.
  cbn [length]. rewrite Nat2Z.inj_succ. lia.
Qed.

(** Five loud ticks within 1.5 s give at most two claps. *)
Lemma clap_rate_limited_witness :
  1000 * Z.of_nat (length (emittedTimes initialMonitor
                             (map (mkTick loud)
                                  [5000; 5300; 5700; 6100; 6500])))
    <= 6500 - 5000 + 1000.
Proof.
  apply (clap_rate_limited
           (map (mkTick loud) [5000; 5300; 5700; 6100; 6500]) 5000 6500).
  - lia.
  - repeat constructor; cbn; lia.
Defined.

(** *** The level shown to the user *)

Lemma sum_bytes_Q (dataArray : list Z) :
  Forall (fun b => 0 <= b <= 255) dataArray ->
  (0 <= inject_Z (sum dataArray))%Q
  /\ (inject_Z (sum dataArray)
        <= inject_Z 255 * inject_Z (Z.of_nat (length dataArray)))%Q.
Proof.
  intros B. pose proof (sum_bytes dataArray B) as [L U]. split.
  - change 0%Q with (inject_Z 0). rewrite <- Zle_Qle. exact L.
  - rewrite <- inject_Z_mult, <- Zle_Qle. exact U.
Qed.

(** For a non-empty buffer of byte magnitudes the normalized level lies
    in [0, 1], and after a sampling tick it is the value held in
    [audioLevel], whether or not a clap was reported. *)
Theorem audio_level_normalized (m : Monitor) (tk : Tick) :
  frequencyData tk <> [] ->
  Forall (fun b => 0 <= b <= 255) (frequencyData tk) ->
  (0 <= normalizedLevel (frequencyData tk) <= 1)%Q
  /\ audioLevel (after (tick m tk)) = normalizedLevel (frequencyData tk).
Proof.
  intros NE B. split.
  - destruct (sum_bytes_Q _ B) as [L U].
    assert (N : (0 < inject_Z (Z.of_nat (length (frequencyData tk))))%Q).
    { change 0%Q with (inject_Z 0). rewrite <- Zlt_Qlt.
      destruct (frequencyData tk); [congruence|cbn [length]; lia]. }
    assert (K : (0 < inject_Z 255)%Q) by reflexivity.
    unfold normalizedLevel. split.
    + apply Qle_shift_div_l; [exact K|]. rewrite Qmult_0_l.
      apply Qle_shift_div_l; [exact N|]. rewrite Qmult_0_l. exact L.
    + apply Qle_shift_div_r; [exact K|]. rewrite Qmult_1_l.
      apply Qle_shift_div_r; [exact N|]. exact U.
  - unfold tick, processAudio.
    destruct (gtQ _ clapThreshold); [destruct (Z.gtb _ clapCooldown)|];
      reflexivity.
Qed.

Lemma audio_level_normalized_witness :
  (0 <= normalizedLevel loud <= 1)%Q
  /\ audioLevel (after (tick initialMonitor (mkTick loud 5000)))
     = normalizedLevel loud.
Proof.
  apply (audio_level_normalized initialMonitor (mkTick loud 5000)).
  - discriminate.
  - apply Forall_forall. intros x Hx. apply repeat_spec in Hx. subst. lia.
Defined.

End ClapSpacing.

(** ** AudioDetector.tsx: acquiring and releasing the microphone *)

Module Microphone.

Import AudioDetector.

(** [s.startsWith(prefix)] and [s.includes(sub)] *)
Fixpoint startsWith (prefix s : jsstring) : bool :=
  match prefix, s with
  | [], _ => true
  | p :: ps, c :: cs => (p =? c)%N && startsWith ps cs
  | _ :: _, [] => false
  end.

Fixpoint includes (s sub : jsstring) : bool :=
  startsWith sub s
  || match s with
     | [] => false
     | _ :: r => includes r sub
     end.

(** What the component handed back to the browser. *)
Inductive Released :=
| FrameCancelled (id : Z)
| TrackStopped (track : Z)
| MicrophoneDisconnected
| ContextClosed.

(** The component: its state, its refs and the log of what it released.
    A stream is the list of its tracks. *)
Record Detector := mkDetector {
  isListening : bool;
  error : option jsstring;
  refs : Monitor;                   (* audioLevel and lastClapTimeRef *)
  audioContextRef : bool;
  analyserRef : bool;
  microphoneRef : bool;
  streamRef : option (list Z);
  animationFrameRef : option Z;
  released : list Released
}.

Definition initialDetector : Detector :=
  {| isListening := false; error := None; refs := initialMonitor;
     audioContextRef := false; analyserRef := false; microphoneRef := false;
     streamRef := None; animationFrameRef := None; released := [] |}.

(** [processAudio] inside the component: [data] is what the analyser
    delivers when it is attached, [frame] the id the next
    [requestAnimationFrame] returns. The result says whether
    [onClapDetected] was called. *)
Definition processAudioIn (data : list Z) (now frame : Z) (d : Detector)
  : bool * Detector :=
  let o := processAudio (if analyserRef d then Some data else None) now
                        (refs d) in
  (clap o,
   mkDetector (isListening d) (error d) (after o) (audioContextRef d)
     (analyserRef d) (microphoneRef d) (streamRef d)
     (if rescheduled o then Some frame else animationFrameRef d)
     (released d)).

(** The message set by the [catch] block of [startListening]. *)
Definition microphoneError (e : SignboardReader.Thrown) : jsstring :=
  match e with
  | SignboardReader.ErrorObject message =>
      if includes message "Permission denied"
      then "Microphone permission denied. Please allow microphone access and reload the page."
      else lit "Microphone error: " ++ message
  | SignboardReader.OtherValue =>
      "Failed to access microphone. Please check your microphone permissions."
  end.

(** What [getUserMedia] settles to. *)
Inductive Permission :=
| Granted (tracks : list Z)
| Rejected (e : SignboardReader.Thrown).

(** [startListening] up to its [await]: [setError(null)]. *)
Definition startListening_begin (d : Detector) : Detector :=
  mkDetector (isListening d) None (refs d) (audioContextRef d)
    (analyserRef d) (microphoneRef d) (streamRef d) (animationFrameRef d)
    (released d).

(** [startListening] once [getUserMedia] has settled: the refs are
    filled, [isListening] is set and [processAudio] is called for the first
    time; or the [catch] block sets the message. *)
Definition startListening_settled (p : Permission) (data : list Z)
  (now frame : Z) (d : Detector) : Detector :=
  match p with
  | Granted tracks =>
      let d := mkDetector true (error d) (refs d) true true true
                 (Some tracks) (animationFrameRef d) (released d) in
      snd (processAudioIn data now frame d)
  | Rejected e =>
      mkDetector (isListening d) (Some (microphoneError e)) (refs d)
        (audioContextRef d) (analyserRef d) (microphoneRef d) (streamRef d)
        (animationFrameRef d) (released d)
  end.

Definition startListening (p : Permission) (data : list Z) (now frame : Z)
  (d : Detector) : Detector :=
  startListening_settled p data now frame (startListening_begin d).

(** [if (animationFrameRef.current)]: a missing id and the id 0 are
    falsy. *)
Definition frameSet (r : option Z) : option Z :=
  match r with
  | Some id => if id =? 0 then None else Some id
  | None => None
  end.

Definition stopListening (d : Detector) : Detector :=
  let log := released d in
  (* Cancel animation frame *)
  let '(frameRef, log) :=
    match frameSet (animationFrameRef d) with
    | Some id => (None, log ++ [FrameCancelled id])
    | None => (animationFrameRef d, log)
    end in
  (* Stop microphone stream *)
  let log := match streamRef d with
             | Some tracks => log ++ map TrackStopped tracks
             | None => log
             end in
  (* Disconnect audio nodes *)
  let log := if microphoneRef d then log ++ [MicrophoneDisconnected] else log in
  (* Close audio context *)
  let log := if audioContextRef d then log ++ [ContextClosed] else log in
  mkDetector false (error d)
    (mkMonitor (lastClapTimeRef (refs d)) 0)
    false false false None frameRef log.

End Microphone.

(** ** CameraView: acquiring and releasing the camera *)

Module CameraView.

Import Microphone.

Record Camera := mkCamera {
  mounted : bool;                  (* the effect's [mounted] variable *)
  streamRef : option (list Z);
  videoRef : bool;                 (* the video element is attached *)
  srcObject : option (list Z);
  isReady : bool;
  error : option jsstring;
  stopped : list Z                 (* tracks stopped so far *)
}.

Definition cameraError (e : SignboardReader.Thrown) : jsstring :=
  match e with
  | SignboardReader.ErrorObject message =>
      if includes message "Permission denied"
      then "Camera permission denied. Please allow camera access and reload the page."
      else lit "Camera error: " ++ message
  | SignboardReader.OtherValue =>
      "Failed to access camera. Please check your camera permissions."
  end.

(** [startCamera] once [getUserMedia] has settled. *)
Definition startCamera_settled (p : Permission) (c : Camera) : Camera :=
  match p with
  | Granted stream =>
      if negb (mounted c)
      then mkCamera (mounted c) (streamRef c) (videoRef c) (srcObject c)
             (isReady c) (error c) (stopped c ++ stream)
      else mkCamera (mounted c) (Some stream) (videoRef c)
             (if videoRef c then Some stream else srcObject c)
             (isReady c) (error c) (stopped c)
  | Rejected e =>
      if mounted c
      then mkCamera (mounted c) (streamRef c) (videoRef c) (srcObject c)
             (isReady c) (Some (cameraError e)) (stopped c)
      else c
  end.

(** [videoRef.current.onloadedmetadata] *)
Definition onloadedmetadata (c : Camera) : Camera :=
  if mounted c
  then mkCamera (mounted c) (streamRef c) (videoRef c) (srcObject c) true
         (error c) (stopped c)
  else c.

(** The effect's cleanup. *)
Definition cleanup (c : Camera) : Camera :=
  match streamRef c with
  | Some stream =>
      mkCamera false None (videoRef c) (srcObject c) false (error c)
        (stopped c ++ stream)
  | None =>
      mkCamera false None (videoRef c) (srcObject c) false (error c)
        (stopped c)
  end.

End CameraView.

Section Resources.

Import AudioDetector.
Import Microphone.

Lemma startsWith_spec (prefix s : jsstring) :
  startsWith prefix s = true <-> exists rest, s = prefix ++ rest.
Proof.
  revert s; induction prefix as [|p ps IH]; intros s; cbn [startsWith].
  - split; [intros _; exists s; reflexivity|reflexivity].
  - destruct s as [|c cs].
    + split; [discriminate|intros [rest H]; discriminate H].
    + rewrite andb_true_iff, N.eqb_eq, IH. split.
      * intros [-> [rest ->]]. exists rest. reflexivity.
      * intros [rest H]. injection H as -> ->. split; [reflexivity|].
        exists rest. reflexivity.
Qed.

(** [includes] finds exactly the contiguous occurrences. *)
Lemma includes_spec (s sub : jsstring) :
  includes s sub = true <-> exists before rest, s = before ++ sub ++ rest.
Proof.
  induction s as [|c r IH]; cbn [includes]; rewrite orb_true_iff.
  - rewrite startsWith_spec. split.
    + intros [[rest H]|H]; [|discriminate].
      exists [], rest. exact H.
    + intros (before & rest & H). left.
      destruct before; [exists rest; exact H|discriminate H].
  - rewrite startsWith_spec, IH. split.
    + intros [[rest H]|(before & rest & H)].
      * exists [], rest. exact H.
      * exists (c :: before), rest. rewrite H. reflexivity.
    + intros (before & rest & H). destruct before as [|b before].
      * left. exists rest. exact H.
      * right. injection H as _ H. exists before, rest. exact H.
Qed.

(** *** stopListening *)

(** [stopListening] is idempotent: a second call releases nothing more
    and changes nothing; and on a detector that never acquired anything
    it releases nothing. *)
Theorem stopListening_idempotent (d : Detector) :
  stopListening (stopListening d) = stopListening d
  /\ released (stopListening initialDetector) = [].
Proof.
  split; [|reflexivity].
  destruct d as [l e r ctx an mic st fr log]. unfold stopListening.
  cbn [animationFrameRef streamRef microphoneRef audioContextRef released
       refs error lastClapTimeRef].
  destruct fr as [id|]; cbn [frameSet];
    [destruct (id =? 0) eqn:E|]; destruct st, mic, ctx;
    cbn; rewrite ?E; reflexivity.
Qed.

(** After [stopListening], an animation-frame callback that still runs
    is inert: no clap is reported, no further frame is requested and the
    detector is unchanged, whatever the analyser would have delivered. *)
Theorem processAudio_inert_after_stop
  (d : Detector) (data : list Z) (now frame : Z) :
  processAudioIn data now frame (stopListening d) = (false, stopListening d).
Proof.
  destruct d as [l e r ctx an mic st fr log]. unfold stopListening.
  cbn [animationFrameRef streamRef microphoneRef audioContextRef released
       refs error lastClapTimeRef].
  destruct (frameSet fr); destruct st, mic, ctx; reflexivity.
Qed.

(** A granted start followed by a stop hands everything back, each track
    of the stream exactly once, and leaves no ref set. *)
Theorem start_then_stop_releases_all
  (d : Detector) (tracks data : list Z) (now frame : Z) :
  frame <> 0 ->
  let d' := stopListening (startListening (Granted tracks) data now frame d) in
  released d' =
    released d ++ [FrameCancelled frame] ++ map TrackStopped tracks
      ++ [MicrophoneDisconnected; ContextClosed]
  /\ streamRef d' = None /\ animationFrameRef d' = None
  /\ audioContextRef d' = false /\ analyserRef d' = false
  /\ microphoneRef d' = false /\ isListening d' = false.
Proof.
  intros F. apply Z.eqb_neq in F.
  unfold startListening, startListening_settled, startListening_begin,
    processAudioIn, stopListening, processAudio.
  cbn [analyserRef refs].
  destruct (gtQ _ clapThreshold); [destruct (Z.gtb _ clapCooldown)|];
    cbn; rewrite F; cbn; rewrite <- !app_assoc; repeat split; reflexivity.
Qed.

Lemma start_then_stop_releases_all_witness :
  released (stopListening
              (startListening (Granted [7; 8]) loud 5000 1 initialDetector))
  = [FrameCancelled 1; TrackStopped 7; TrackStopped 8;
     MicrophoneDisconnected; ContextClosed].
Proof.
  refine (proj1 (start_then_stop_releases_all initialDetector [7; 8]
                   loud 5000 1 _)).
  discriminate.
Defined.

(** [startListening] has no way to learn that the component was stopped
    while the permission prompt was open: a grant arriving after
    [stopListening] still stores the stream, sets [isListening] and starts
    the sampling loop, and nothing is released for it. *)
Theorem grant_after_stop_keeps_microphone
  (d : Detector) (tracks data : list Z) (now frame : Z) :
  let stopped := stopListening (startListening_begin d) in
  let d' := startListening_settled (Granted tracks) data now frame stopped in
  isListening d' = true
  /\ streamRef d' = Some tracks
  /\ animationFrameRef d' = Some frame
  /\ released d' = released stopped.
Proof.
  unfold startListening_settled, processAudioIn, processAudio.
  cbn [analyserRef refs snd].
  destruct (gtQ _ clapThreshold); [destruct (Z.gtb _ clapCooldown)|];
    repeat split; reflexivity.
Qed.

(** *** The reason shown when the device cannot be opened *)

Definition microphonePermissionDenied : jsstring :=
  "Microphone permission denied. Please allow microphone access and reload the page.".

Definition cameraPermissionDenied : jsstring :=
  "Camera permission denied. Please allow camera access and reload the page.".

(** The permission-denied text is shown exactly for an [Error] whose
    message contains "Permission denied"; every other failure gets a
    different text, for the microphone and for the camera alike. *)
Theorem permission_denial_distinguished (e : SignboardReader.Thrown) :
  (microphoneError e = microphonePermissionDenied <->
   exists message before rest,
     e = SignboardReader.ErrorObject message
     /\ message = before ++ lit "Permission denied" ++ rest)
  /\ (CameraView.cameraError e = cameraPermissionDenied <->
      exists message before rest,
        e = SignboardReader.ErrorObject message
        /\ message = before ++ lit "Permission denied" ++ rest).
Proof.
  split; (split;
    [ destruct e as [message|]; cbn [microphoneError CameraView.cameraError];
      [ destruct (includes message "Permission denied") eqn:I;
        [ intros _; apply includes_spec in I as (before & rest & H);
          exists message, before, rest; split; [reflexivity|exact H]
        | intros H; exfalso ]
      | intros H; vm_compute in H; discriminate H ]
    | intros (message & before & rest & -> & H);
      cbn [microphoneError CameraView.cameraError];
      replace (includes message "Permission denied") with true;
      [ reflexivity
      | symmetry; apply includes_spec; exists before, rest; exact H ] ]).
  - apply (f_equal (firstn 18)) in H. vm_compute in H. discriminate H.
  - apply (f_equal (firstn 14)) in H. vm_compute in H. discriminate H.
Qed.

(** *** CameraView: the stream is released on either path *)

(** Whether the camera stream arrives before the component unmounts or
    after, every one of its tracks ends up stopped and no stream is left
    in [streamRef]. *)
Theorem camera_stream_released_either_order
  (c : CameraView.Camera) (stream : list Z) :
  CameraView.mounted c = true ->
  CameraView.streamRef c = None ->
  let arrived_first :=
    CameraView.cleanup (CameraView.startCamera_settled (Granted stream) c) in
  let unmounted_first :=
    CameraView.startCamera_settled (Granted stream) (CameraView.cleanup c) in
  CameraView.stopped arrived_first = CameraView.stopped c ++ stream
  /\ CameraView.stopped unmounted_first = CameraView.stopped c ++ stream
  /\ CameraView.streamRef arrived_first = None
  /\ CameraView.streamRef unmounted_first = None.
Proof.
  intros M S. unfold CameraView.cleanup, CameraView.startCamera_settled.
  rewrite M, S. cbn. repeat split; reflexivity.
Qed.

Definition mountedCamera : CameraView.Camera :=
  CameraView.mkCamera true None true None false None [].

Lemma camera_stream_released_either_order_witness :
  CameraView.stopped
    (CameraView.startCamera_settled (Granted [3; 4])
       (CameraView.cleanup mountedCamera)) = [3; 4].
Proof.
  refine (proj1 (proj2 (camera_stream_released_either_order
                          mountedCamera [3; 4] _ _))); reflexivity.
Defined.

(** Once the cleanup has run, nothing the camera reports later changes
    the component: neither a rejection nor the video's metadata event. *)
Theorem camera_silent_after_unmount
  (c : CameraView.Camera) (e : SignboardReader.Thrown) :
  CameraView.startCamera_settled (Rejected e) (CameraView.cleanup c)
    = CameraView.cleanup c
  /\ CameraView.onloadedmetadata (CameraView.cleanup c) = CameraView.cleanup c
  /\ CameraView.isReady (CameraView.cleanup (CameraView.onloadedmetadata c))
     = false.
Proof.
  unfold CameraView.cleanup, CameraView.onloadedmetadata.
  destruct (CameraView.streamRef c) eqn:S, (CameraView.mounted c) eqn:M;
    cbn; rewrite ?S; repeat split; reflexivity.
Qed.

End Resources.

(** ** TextToSpeech.tsx: voices and playback controls *)

Module Voices.

Import Microphone.
Import TextToSpeech.

Record SpeechSynthesisVoice := mkVoice {
  v_lang : jsstring;
  v_name : jsstring
}.

(** [a === b] on strings *)
Fixpoint sameString (a b : jsstring) : bool :=
  match a, b with
  | [], [] => true
  | x :: a', y :: b' => (x =? y)%N && sameString a' b'
  | _, _ => false
  end.

(** [s.split('-')[0]]: what precedes the first dash (code unit 45), the
    whole string when there is none. *)
Fixpoint beforeDash (s : jsstring) : jsstring :=
  match s with
  | [] => []
  | c :: r => if (c =? 45)%N then [] else c :: beforeDash r
  end.

(** The filter of [relevantVoices]. *)
Definition relevant (currentLang : jsstring) (voice : SpeechSynthesisVoice)
  : bool :=
  startsWith (beforeDash currentLang) (v_lang voice)
  || startsWith "en" (v_lang voice).

(** [a || b] on possibly undefined objects *)
Definition orElse {A} (a b : option A) : option A :=
  match a with Some _ => a | None => b end.

(** [preferredVoice || null] *)
Definition preferredVoice (voices : list SpeechSynthesisVoice)
  (currentLang : jsstring) : option SpeechSynthesisVoice :=
  orElse (find (fun voice => sameString (v_lang voice) currentLang) voices)
  (orElse (find (fun voice => startsWith (beforeDash currentLang)
                                         (v_lang voice)) voices)
  (orElse (find (fun voice => startsWith "en" (v_lang voice)) voices)
          (hd_error voices))).

(** The two pieces of state [loadVoices] sets. *)
Record VoiceState := mkVoiceState {
  availableVoices : list SpeechSynthesisVoice;
  selected : option SpeechSynthesisVoice
}.

(** [loadVoices], with [engine] the voices [speechSynthesis.getVoices()]
    returns, or [None] where the browser has no speech synthesis. *)
Definition loadVoices (engine : option (list SpeechSynthesisVoice))
  (language : SignboardReader.Language) (s : VoiceState) : VoiceState :=
  match engine with
  | None => s
  | Some voices =>
      let currentLang := languageMap language in
      {| availableVoices := filter (relevant currentLang) voices;
         selected := preferredVoice voices currentLang |}
  end.

(** How well a voice fits, in the order [loadVoices] tries: the exact
    locale, the same language, English, anything. *)
Definition fit (currentLang : jsstring) (voice : SpeechSynthesisVoice) : nat :=
  if sameString (v_lang voice) currentLang then 0
  else if startsWith (beforeDash currentLang) (v_lang voice) then 1
  else if startsWith "en" (v_lang voice) then 2
  else 3.

(** What can happen to the sink. *)
Inductive SinkOp :=
| Speak (arg : option jsstring) (p : Props)
| Pause
| Resume
| Stop
| UtteranceStarted
| UtteranceEnded
| UtteranceFailed.

Definition applyOp (s : Sink) (op : SinkOp) : Sink :=
  match op with
  | Speak arg p => speak arg p s
  | Pause => pause s
  | Resume => resume s
  | Stop => stop s
  | UtteranceStarted => onstart s
  | UtteranceEnded => onend s
  | UtteranceFailed => onerror s
  end.

Definition applyOps (s : Sink) (ops : list SinkOp) : Sink :=
  fold_left applyOp ops s.

(** The sink as [useState] creates it, once the mount effect has set
    [isSupported]. *)
Definition initialSink (supported : bool) : Sink :=
  {| isSpeaking := false; isPaused := false; isSupported := supported;
     selectedVoice := None; speechRate := 9 # 10; speechVolume := 8 # 10;
     queue := []; enginePaused := false; notified := [] |}.

End Voices.

Section VoicesAndPlayback.

Import Microphone.
Import TextToSpeech.
Import Voices.

Lemma sameString_eq (a b : jsstring) : sameString a b = true <-> a = b.
Proof.
  revert b; induction a as [|x a IH]; intros [|y b]; cbn [sameString];
    try (split; congruence).
  rewrite andb_true_iff, N.eqb_eq, IH. split.
  - intros [-> ->]; reflexivity.
  - intros [= -> ->]; auto.
Qed.

Lemma startsWith_beforeDash (s : jsstring) : startsWith (beforeDash s) s = true.
Proof.
  induction s as [|c r IH]; cbn [beforeDash]; [reflexivity|].
  destruct (c =? 45)%N; [reflexivity|].
  cbn [startsWith]. rewrite N.eqb_refl. exact IH.
Qed.

(** A voice of the exact locale passes the filter of the list. *)
Lemma exact_is_relevant (currentLang : jsstring) (v : SpeechSynthesisVoice) :
  sameString (v_lang v) currentLang = true -> relevant currentLang v = true.
Proof.
  intros H. apply sameString_eq in H. unfold relevant. rewrite H.
  rewrite startsWith_beforeDash. reflexivity.
Qed.

(** [loadVoices] selects a best-fitting voice: the selected voice is one
    of the engine's voices, and no voice of the engine fits the language
    better (exact locale before same language before English before any
    other). *)
Theorem loadVoices_selects_best_fit
  (voices : list SpeechSynthesisVoice) (language : SignboardReader.Language)
  (s : VoiceState) (v : SpeechSynthesisVoice) :
  selected (loadVoices (Some voices) language s) = Some v ->
  In v voices
  /\ forall u, In u voices ->
       (fit (languageMap language) v <= fit (languageMap language) u)%nat.
Proof.
  cbn [loadVoices selected]. generalize (languageMap language) as cl.
  intros cl. unfold preferredVoice, orElse, fit.
  destruct (find (fun voice => sameString (v_lang voice) cl) voices)
    as [v0|] eqn:F0.
  { intros [= <-]. apply find_some in F0 as [I E]. rewrite E.
    split; [exact I|intros; lia]. }
  pose proof (find_none _ _ F0) as N0. cbv beta in N0.
  destruct (find (fun voice => startsWith (beforeDash cl) (v_lang voice)) voices)
    as [v1|] eqn:F1.
  { intros [= <-]. apply find_some in F1 as [I E]. rewrite E, (N0 _ I).
    split; [exact I|]. intros u Hu. rewrite (N0 _ Hu).
    destruct (startsWith (beforeDash cl) (v_lang u));
      [|destruct (startsWith "en" (v_lang u))]; lia. }
  pose proof (find_none _ _ F1) as N1. cbv beta in N1.
  destruct (find (fun voice => startsWith "en" (v_lang voice)) voices)
    as [v2|] eqn:F2.
  { intros [= <-]. apply find_some in F2 as [I E].
    rewrite E, (N0 _ I), (N1 _ I).
    split; [exact I|]. intros u Hu. rewrite (N0 _ Hu), (N1 _ Hu).
    destruct (startsWith "en" (v_lang u)); lia. }
  pose proof (find_none _ _ F2) as N2. cbv beta in N2.
  destruct voices as [|v3 rest]; [discriminate|].
  cbn [hd_error]. intros [= <-].
  split; [left; reflexivity|]. intros u Hu.
  rewrite (N0 _ Hu), (N1 _ Hu), (N2 _ Hu).
  destruct (sameString (v_lang v3) cl),
    (startsWith (beforeDash cl) (v_lang v3)),
    (startsWith "en" (v_lang v3)); lia.
Qed.

Definition someVoices : list SpeechSynthesisVoice :=
  [mkVoice "fr-FR" "Amelie"; mkVoice "en-GB" "Daniel";
   mkVoice "hi-IN" "Lekha"; mkVoice "en-US" "Samantha"].

Lemma loadVoices_selects_best_fit_witness :
  In (mkVoice "hi-IN" "Lekha") someVoices
  /\ forall u, In u someVoices ->
       (fit (languageMap SignboardReader.hin) (mkVoice "hi-IN" "Lekha")
        <= fit (languageMap SignboardReader.hin) u)%nat.
Proof.
  apply (loadVoices_selects_best_fit someVoices SignboardReader.hin
           (mkVoiceState [] None) (mkVoice "hi-IN" "Lekha")).
  reflexivity.
Defined.

Lemma filter_nil_none {A} (p : A -> bool) (l : list A) :
  filter p l = [] -> forall x, In x l -> p x = false.
Proof.
  intros H x Hx. destruct (p x) eqn:E; [|reflexivity].
  assert (I : In x (filter p l)) by (apply filter_In; split; assumption).
  rewrite H in I. destruct I.
Qed.

(** The selected voice against the list offered to the user. No voice is
    selected exactly when the engine has none. As soon as the list is not
    empty the selected voice is in it. When no voice of the engine is for
    the language or for English, the list is empty and the engine's first
    voice is selected all the same. *)
Theorem loadVoices_selection_and_list
  (voices : list SpeechSynthesisVoice) (language : SignboardReader.Language)
  (s : VoiceState) :
  let s' := loadVoices (Some voices) language s in
  (selected s' = None <-> voices = [])
  /\ (availableVoices s' <> [] ->
      exists v, selected s' = Some v /\ In v (availableVoices s'))
  /\ (availableVoices s' = [] -> selected s' = hd_error voices).
Proof.
  cbn [loadVoices selected availableVoices].
  generalize (languageMap language) as cl. intros cl.
  unfold preferredVoice, orElse.
  destruct (find (fun voice => sameString (v_lang voice) cl) voices)
    as [v0|] eqn:F0.
  { pose proof (find_some _ _ F0) as [I E]. apply exact_is_relevant in E.
    split; [split; [discriminate|intros ->; destruct I]|].
    split.
    - intros _. exists v0. split; [reflexivity|].
      apply filter_In. split; assumption.
    - intros H. rewrite (filter_nil_none _ _ H v0 I) in E. discriminate E. }
  destruct (find (fun voice => startsWith (beforeDash cl) (v_lang voice)) voices)
    as [v1|] eqn:F1.
  { pose proof (find_some _ _ F1) as [I E].
    assert (R : relevant cl v1 = true) by (unfold relevant; rewrite E; reflexivity).
    split; [split; [discriminate|intros ->; destruct I]|].
    split.
    - intros _. exists v1. split; [reflexivity|].
      apply filter_In. split; assumption.
    - intros H. rewrite (filter_nil_none _ _ H v1 I) in R. discriminate R. }
  pose proof (find_none _ _ F1) as N1. cbv beta in N1.
  destruct (find (fun voice => startsWith "en" (v_lang voice)) voices)
    as [v2|] eqn:F2.
  { pose proof (find_some _ _ F2) as [I E].
    assert (R : relevant cl v2 = true).
    { unfold relevant. rewrite E. apply orb_true_r. }
    split; [split; [discriminate|intros ->; destruct I]|].
    split.
    - intros _. exists v2. split; [reflexivity|].
      apply filter_In. split; assumption.
    - intros H. rewrite (filter_nil_none _ _ H v2 I) in R. discriminate R. }
  pose proof (find_none _ _ F2) as N2. cbv beta in N2.
  split; [destruct voices; split; (reflexivity || discriminate)|].
  split; [|reflexivity].
  intros H. exfalso. apply H.
  destruct (filter (relevant cl) voices) as [|u r] eqn:Fl; [reflexivity|].
  assert (I : In u (filter (relevant cl) voices)) by (rewrite Fl; left; reflexivity).
  apply filter_In in I as [I R]. unfold relevant in R.
  rewrite (N1 _ I), (N2 _ I) in R. discriminate R.
Qed.

(** *** Playback state *)

(** Whatever is done to the sink, in whatever order (speak, pause,
    resume, stop, and the utterance's start, end and error events), it is
    never paused without speaking, and the engine's queue never holds
    more than one utterance. *)
Theorem sink_never_paused_idle (supported : bool) (ops : list SinkOp) :
  let s := applyOps (initialSink supported) ops in
  (isPaused s = true -> isSpeaking s = true)
  /\ (length (queue s) <= 1)%nat.
Proof.
  cbv zeta. unfold applyOps.
  assert (G : forall s,
             (isPaused s = true -> isSpeaking s = true) ->
             (length (queue s) <= 1)%nat ->
             (isPaused (fold_left applyOp ops s) = true ->
              isSpeaking (fold_left applyOp ops s) = true)
             /\ (length (queue (fold_left applyOp ops s)) <= 1)%nat).
  { induction ops as [|op ops IH]; intros s P Q; [split; assumption|].
    cbn [fold_left]. apply IH.
    - destruct op; cbn [applyOp]; try (cbn; intros; congruence).
      + unfold speak. destruct (negb (isSupported s) || _); [exact P|].
        cbn. exact P.
      + unfold pause.
        destruct (isSpeaking s && negb (isPaused s)) eqn:C; [|exact P].
        cbn. intros _. apply andb_true_iff in C. apply C.
      + unfold resume. destruct (isSpeaking s && isPaused s); [|exact P].
        cbn. discriminate.
    - destruct op; cbn [applyOp]; try exact Q.
      + unfold speak. destruct (negb (isSupported s) || _); [exact Q|].
        cbn. lia.
      + unfold pause. destruct (isSpeaking s && negb (isPaused s)); exact Q.
      + unfold resume. destruct (isSpeaking s && isPaused s); exact Q.
      + cbn. lia. }
  apply G; cbn; [discriminate|lia].
Qed.

(** Pausing and resuming an utterance that is playing brings the sink
    back to where it was. *)
Theorem pause_resume_round_trip (s : Sink) :
  isSpeaking s = true -> isPaused s = false -> enginePaused s = false ->
  resume (pause s) = s
  /\ isPaused (pause s) = true.
Proof.
  destruct s as [sp pa su vo ra vl q ep n]. cbn.
  intros -> -> ->. split; reflexivity.
Qed.

Lemma pause_resume_round_trip_witness :
  resume (pause speaking_sink) = speaking_sink
  /\ isPaused (pause speaking_sink) = true.
Proof.
  apply (pause_resume_round_trip speaking_sink); reflexivity.
Defined.

End VoicesAndPlayback.

(** ** SignboardReader.tsx: what every run of the loop keeps *)

Section LoopInvariants.

Import SignboardReader.

(** The closure a timer will call. *)
Definition closureOf (cb : Callback) : Captured :=
  match cb with AutoStart c | Rescan c => c end.

Definition isAutoStart (tm : Timer) : bool :=
  match callback tm with AutoStart _ => true | Rescan _ => false end.

(** A closure created by a render that saw the session active and no
    cycle in progress. *)
Definition activeIdle (c : Captured) : Prop :=
  c_isActive c = true /\ c_isProcessing c = false.

(** The states reached from the initial one. *)
Definition reachable (w : World) : Prop :=
  exists trace, run initialWorld trace = Some w.

Record Inv (w : World) : Prop := mkInv {
  ids_below : Forall (fun tm => timerId tm < nextTimerId w) (timers w);
  ids_nodup : NoDup (map timerId (timers w));
  auto_tracked : forall tm, In tm (timers w) -> isAutoStart tm = true ->
                            effectTimer w = Some (timerId tm);
  timers_activeIdle :
    Forall (fun tm => activeIdle (closureOf (callback tm))) (timers w);
  pending_activeIdle : Forall (fun cy => activeIdle (closure cy)) (pending w);
  effect_below : forall id, effectTimer w = Some id -> id < nextTimerId w;
  auto_current : forall tm, In tm (timers w) -> isAutoStart tm = true ->
                            closureOf (callback tm) = rendered w
}.

(** The fields the invariant reads. *)
Definition core (w : World) :=
  (timers w, nextTimerId w, effectTimer w, pending w, rendered w).

Lemma Inv_core (w w' : World) : core w' = core w -> Inv w -> Inv w'.
Proof.
  unfold core. intros [= T N E P Rn] [H1 H2 H3 H4 H5 H6 H7].
  constructor; rewrite ?T, ?N, ?E, ?P, ?Rn; assumption.
Qed.

Lemma core_speakStatus (text language : jsstring) (w : World) :
  core (speakStatus text language w) = core w.
Proof. unfold speakStatus. destruct (speechSynthesis w); reflexivity. Qed.

Lemma core_catch (e : Thrown) (w : World) :
  core (processImage_catch e w) = core w.
Proof. unfold processImage_catch. rewrite core_speakStatus. reflexivity. Qed.

Lemma core_cameraView (w : World) : core (cameraView w) = core w.
Proof.
  unfold cameraView.
  destruct (isActive (state w)); [|destruct (cameraRef w);
    [destruct (cameraExit w)|]]; reflexivity.
Qed.

(** Filtering a timer list keeps its ids distinct. *)
Lemma distinct_ids_filter (keep : Timer -> bool) (l : list Timer) :
  NoDup (map timerId l) -> NoDup (map timerId (filter keep l)).
Proof.
  intros D. induction l as [|tm rest IH]; [exact D|].
  cbn [map] in D. apply NoDup_cons_iff in D as [Fresh D].
  cbn [filter]. destruct (keep tm); [|exact (IH D)].
  cbn [map]. apply NoDup_cons; [|exact (IH D)].
  intros Again. apply Fresh.
  apply in_map_iff in Again as (other & Same & Kept).
  apply filter_In in Kept as [Kept _].
  rewrite <- Same. apply in_map. exact Kept.
Qed.

Lemma Forall_filter {A} (P : A -> Prop) (p : A -> bool) (l : list A) :
  Forall P l -> Forall P (filter p l).
Proof.
  intros H. apply Forall_forall. intros x Hx.
  apply filter_In in Hx as [Hx _]. rewrite Forall_forall in H. auto.
Qed.

Lemma Inv_clearTimeout (id : Z) (w : World) : Inv w -> Inv (clearTimeout id w).
Proof.
  intros [H1 H2 H3 H4 H5 H6 H7]. constructor; cbn.
  - apply Forall_filter. exact H1.
  - apply distinct_ids_filter. exact H2.
  - intros tm I. apply filter_In in I as [I _]. exact (H3 tm I).
  - apply Forall_filter. exact H4.
  - exact H5.
  - exact H6.
  - intros tm I. apply filter_In in I as [I _]. exact (H7 tm I).
Qed.

Lemma NoDup_snoc {A} (l : list A) (x : A) :
  NoDup l -> ~ In x l -> NoDup (l ++ [x]).
Proof.
  induction l as [|y l IH]; cbn; intros H N.
  - repeat constructor. intros [].
  - inversion H; subst. constructor.
    + intros I. apply in_app_or in I as [I|[<-|[]]]; [contradiction|].
      apply N. left. reflexivity.
    + apply IH; [assumption|]. intros I. apply N. right. exact I.
Qed.

(** [setTimeout] of a rescan, as [processImage] does it. *)
Lemma Inv_rescan (c : Captured) (delay : Z) (w : World) :
  activeIdle c -> Inv w ->
  Inv (with_processingTimeoutRef (Some (nextTimerId w))
         (snd (setTimeout (Rescan c) delay w))).
Proof.
  intros A [H1 H2 H3 H4 H5 H6 H7]. constructor; cbn.
  - apply Forall_app. split.
    + eapply Forall_impl; [|exact H1]. cbv beta. intros; lia.
    + repeat constructor. cbn. lia.
  - rewrite map_app. cbn [map timerId]. apply NoDup_snoc; [exact H2|].
    intros I. apply in_map_iff in I as (tm & E & I).
    rewrite Forall_forall in H1. specialize (H1 tm I). cbv beta in H1. lia.
  - intros tm I. apply in_app_or in I as [I|[<-|[]]]; [exact (H3 tm I)|].
    discriminate.
  - apply Forall_app. split; [exact H4|]. repeat constructor; apply A.
  - exact H5.
  - intros id E. specialize (H6 id E). lia.
  - intros tm I. apply in_app_or in I as [I|[<-|[]]]; [exact (H7 tm I)|].
    discriminate.
Qed.

Lemma Inv_suspend (c : Captured) (n n' : Z) (w : World) :
  activeIdle c -> Inv w ->
  Inv (with_pending (pending w ++ [mkCycle n c]) n' w).
Proof.
  intros A [H1 H2 H3 H4 H5 H6 H7]. constructor; cbn; try assumption.
  apply Forall_app. split; [exact H5|]. repeat constructor; apply A.
Qed.

Lemma Inv_settle (id : Z) (w : World) :
  Inv w ->
  Inv (with_pending (filter (fun c => negb (cycleId c =? id)) (pending w))
                    (nextCycleId w) w).
Proof.
  intros [H1 H2 H3 H4 H5 H6 H7]. constructor; cbn; try assumption.
  apply Forall_filter. exact H5.
Qed.

Lemma Inv_resume (c : Captured) (r : RecognitionResult) (w : World) :
  activeIdle c -> Inv w -> Inv (processImage_resume c r w).
Proof.
  intros A I. destruct r as [text|e]; cbn [processImage_resume].
  - destruct (0 <? length (trim text))%nat.
    + cbv zeta.
      match goal with
      | |- Inv (let '(_, _) := setTimeout _ _ ?w2 in _) =>
          apply (Inv_rescan c 3000 w2 A)
      end.
      apply (Inv_core w); [|exact I].
      rewrite core_speakStatus. reflexivity.
    + cbv zeta.
      match goal with
      | |- Inv (let '(_, _) := setTimeout _ _ ?w2 in _) =>
          apply (Inv_rescan c 1500 w2 A)
      end.
      apply (Inv_core w); [|exact I].
      rewrite core_speakStatus. reflexivity.
  - apply (Inv_core w); [apply core_catch|exact I].
Qed.

Lemma guard_passed (c : Captured) (w : World) :
  negb (c_isActive c) || c_isProcessing c || negb (cameraRef w) = false ->
  activeIdle c /\ cameraRef w = true.
Proof.
  unfold activeIdle.
  destruct (c_isActive c), (c_isProcessing c), (cameraRef w);
    cbn; intros H; try discriminate H; auto.
Qed.

Lemma Inv_processImage (c : Captured) (cap : CaptureResult) (w : World) :
  Inv w -> Inv (processImage c cap w).
Proof.
  intros I. unfold processImage.
  destruct (negb (c_isActive c) || c_isProcessing c || negb (cameraRef w))
    eqn:G; [exact I|].
  apply guard_passed in G as [A _].
  cbv zeta.
  match goal with
  | |- context [speakStatus ?t ?l ?w1] => set (w2 := speakStatus t l w1)
  end.
  assert (I2 : Inv w2).
  { apply (Inv_core w); [|exact I].
    subst w2. rewrite core_speakStatus. reflexivity. }
  destruct cap as [imageData|e].
  - destruct (match imageData with
              | Some d => negb (truthy d)
              | None => true
              end).
    + apply (Inv_core w2); [apply core_catch|exact I2].
    + apply (Inv_suspend c _ _ (updateStatus _ w2) A).
      apply (Inv_core w2); [reflexivity|exact I2].
  - apply (Inv_core w2); [apply core_catch|exact I2].
Qed.

Lemma Inv_handleClapDetected (w : World) : Inv w -> Inv (handleClapDetected w).
Proof.
  intros I. unfold handleClapDetected.
  destruct (negb (isActive (state w))).
  - apply (Inv_core w); [|exact I].
    unfold setState, core. cbn. fold (core (speakStatus
      "SignBoard Reader activated. Point camera at text." en_US w)).
    apply core_speakStatus.
  - set (w1 := speakStatus "SignBoard Reader deactivated." en_US w).
    assert (I1 : Inv w1).
    { apply (Inv_core w); [apply core_speakStatus|exact I]. }
    cbv zeta.
    destruct (processingTimeoutRef w1) as [id|].
    + apply (Inv_core (clearTimeout id w1)); [reflexivity|].
      apply Inv_clearTimeout. exact I1.
    + apply (Inv_core w1); [reflexivity|exact I1].
Qed.

Lemma Inv_handleLanguageChange (l : Language) (w : World) :
  Inv w -> Inv (handleLanguageChange l w).
Proof.
  intros I. unfold handleLanguageChange. cbv zeta.
  apply (Inv_core w); [|exact I].
  rewrite core_speakStatus. reflexivity.
Qed.

(** After the cleanup of the effect no auto-start timer is left. *)
Lemma cleanup_clears_auto_start (w : World) :
  Inv w ->
  let w1 := match effectTimer w with
            | Some timer => clearTimeout timer w
            | None => w
            end in
  Inv w1 /\ forall tm, In tm (timers w1) -> isAutoStart tm = false.
Proof.
  intros I. pose proof (auto_tracked w I) as T.
  destruct (effectTimer w) as [timer|] eqn:E; cbv zeta.
  - split; [apply Inv_clearTimeout; exact I|].
    intros tm H. cbn in H. apply filter_In in H as [H N].
    destruct (isAutoStart tm) eqn:A; [|reflexivity].
    specialize (T tm H A). injection T as ->.
    rewrite Z.eqb_refl in N. discriminate N.
  - split; [exact I|]. intros tm H.
    destruct (isAutoStart tm) eqn:A; [|reflexivity].
    specialize (T tm H A). discriminate T.
Qed.

Lemma Inv_autoStartEffect (w : World) : Inv w -> Inv (autoStartEffect w).
Proof.
  intros I. unfold autoStartEffect. cbv zeta.
  destruct (Captured_eqb _ _); [exact I|].
  destruct (cleanup_clears_auto_start w I) as [I1 NA].
  cbv zeta in I1, NA.
  set (w1 := match effectTimer w with
             | Some timer => clearTimeout timer w
             | None => w
             end) in *.
  destruct I1 as [H1 H2 H3 H4 H5 H6 H7].
  destruct (isActive (state w1) && negb (isProcessing (state w1))) eqn:G.
  - apply andb_true_iff in G as [Ga Gp]. apply negb_true_iff in Gp.
    constructor; cbn.
    + apply Forall_app. split.
      * eapply Forall_impl; [|exact H1]. cbv beta. intros; lia.
      * repeat constructor. cbn. lia.
    + rewrite map_app. cbn [map timerId]. apply NoDup_snoc; [exact H2|].
      intros J. apply in_map_iff in J as (tm & E & J).
      rewrite Forall_forall in H1. specialize (H1 tm J). cbv beta in H1. lia.
    + intros tm J A. apply in_app_or in J as [J|[<-|[]]]; [|reflexivity].
      rewrite (NA tm J) in A. discriminate A.
    + apply Forall_app. split; [exact H4|]. repeat constructor; cbn.
      * replace (isActive (state w)) with (isActive (state w1));
          [exact Ga|subst w1; destruct (effectTimer w); reflexivity].
      * replace (isProcessing (state w)) with (isProcessing (state w1));
          [exact Gp|subst w1; destruct (effectTimer w); reflexivity].
    + exact H5.
    + intros id [= <-]. lia.
    + intros tm J A. apply in_app_or in J as [J|[<-|[]]]; [|reflexivity].
      rewrite (NA tm J) in A. discriminate A.
  - constructor; cbn; try assumption.
    + intros tm J A. rewrite (NA tm J) in A. discriminate A.
    + discriminate.
    + intros tm J A. rewrite (NA tm J) in A. discriminate A.
Qed.

Lemma Inv_render (w : World) : Inv w -> Inv (render w).
Proof.
  intros I. unfold render. apply Inv_autoStartEffect.
  apply (Inv_core w); [apply core_cameraView|exact I].
Qed.

Lemma Inv_with_now (t : Z) (w : World) : Inv w -> Inv (with_now t w).
Proof. apply Inv_core. reflexivity. Qed.

Lemma findTimer_In (id : Z) (w : World) (tm : Timer) :
  findTimer id w = Some tm -> In tm (timers w) /\ timerId tm = id.
Proof.
  unfold findTimer. intros H. apply find_some in H as [I E].
  apply Z.eqb_eq in E. auto.
Qed.

Lemma findCycle_In (id : Z) (w : World) (cy : Cycle) :
  findCycle id w = Some cy -> In cy (pending w) /\ cycleId cy = id.
Proof.
  unfold findCycle. intros H. apply find_some in H as [I E].
  apply Z.eqb_eq in E. auto.
Qed.

Lemma Inv_dispatch (t : Z) (ev : Event) (w w' : World) :
  Inv w -> dispatch t ev w = Some w' -> Inv w'.
Proof.
  intros I. unfold dispatch.
  destruct (_ && _); [|discriminate]. cbv zeta.
  pose proof (Inv_with_now t w I) as I0.
  destruct ev as [|l|id cap|id r|].
  - intros [= <-]. apply Inv_handleClapDetected. exact I0.
  - intros [= <-]. apply Inv_handleLanguageChange. exact I0.
  - destruct (findTimer id (with_now t w)) as [tm|] eqn:F; [|discriminate].
    destruct (due tm =? t); [|discriminate]. intros [= <-].
    apply findTimer_In in F as [F _].
    pose proof (timers_activeIdle _ I0) as G. rewrite Forall_forall in G.
    specialize (G tm F). cbv beta in G.
    pose proof (Inv_clearTimeout id _ I0) as I1.
    destruct (callback tm) as [c|c]; cbn [runCallback closureOf] in *.
    + apply Inv_processImage. exact I1.
    + destruct (c_isActive c); [apply Inv_processImage|]; exact I1.
  - destruct (findCycle id (with_now t w)) as [cy|] eqn:F; [|discriminate].
    intros [= <-]. apply findCycle_In in F as [F _].
    pose proof (pending_activeIdle _ I0) as G. rewrite Forall_forall in G.
    apply Inv_resume; [exact (G cy F)|].
    apply (Inv_settle id (with_now t w)). exact I0.
  - destruct (cameraExit (with_now t w)) as [e|]; [|discriminate].
    destruct (e =? t); [|discriminate]. intros [= <-].
    apply (Inv_core (with_now t w)); [reflexivity|exact I0].
Qed.

Lemma Inv_step (w w' : World) (e : Z * Event) :
  Inv w -> step w e = Some w' -> Inv w'.
Proof.
  intros I. unfold step.
  destruct (dispatch (fst e) (snd e) w) as [w1|] eqn:D; [|discriminate].
  cbn [option_map]. intros [= <-].
  apply Inv_render. exact (Inv_dispatch _ _ _ _ I D).
Qed.

Lemma Inv_run (trace : list (Z * Event)) (w w' : World) :
  Inv w -> run w trace = Some w' -> Inv w'.
Proof.
  revert w; induction trace as [|e rest IH]; intros w I; cbn [run].
  - intros [= <-]. exact I.
  - destruct (step w e) as [w1|] eqn:S; [|discriminate].
    apply IH. exact (Inv_step _ _ _ I S).
Qed.

Lemma Inv_initialWorld : Inv initialWorld.
Proof.
  constructor; cbn; try constructor;
    [intros tm []|discriminate|intros tm []].
Qed.

Lemma Inv_reachable (w : World) : reachable w -> Inv w.
Proof. intros [trace H]. exact (Inv_run trace _ _ Inv_initialWorld H). Qed.

(** *** What the last render saw *)

Lemma Captured_eqb_eq (a b : Captured) : Captured_eqb a b = true <-> a = b.
Proof.
  destruct a as [a1 a2 a3], b as [b1 b2 b3]. unfold Captured_eqb. cbn.
  split.
  - intros H. apply andb_true_iff in H as [H H3].
    apply andb_true_iff in H as [H1 H2].
    apply Bool.eqb_prop in H1, H2.
    destruct a3, b3; try discriminate H3; subst; reflexivity.
  - intros [= -> -> ->]. rewrite !Bool.eqb_reflx. destruct b3; reflexivity.
Qed.

(** After a render the recorded dependencies are those of the current
    state. *)
Lemma render_rendered (w : World) :
  rendered (render w) = capture_state (state (render w)).
Proof.
  destruct (render_keeps w) as (-> & _).
  unfold render, autoStartEffect. cbv zeta.
  destruct (cameraView_keeps w) as (S & _).
  destruct (Captured_eqb _ _) eqn:E.
  - apply Captured_eqb_eq in E. rewrite <- E, S. reflexivity.
  - rewrite S.
    destruct (effectTimer (cameraView w)); cbn;
      destruct (isActive (state (cameraView w))
                && negb (isProcessing (state (cameraView w))));
      cbn; reflexivity.
Qed.

Lemma reachable_rendered (w : World) :
  reachable w -> rendered w = capture_state (state w).
Proof.
  intros [trace H]. revert H.
  assert (G : forall w0, rendered w0 = capture_state (state w0) ->
                         run w0 trace = Some w ->
                         rendered w = capture_state (state w)).
  { induction trace as [|e rest IH]; intros w0 R; cbn [run].
    - intros [= <-]. exact R.
    - unfold step. destruct (dispatch (fst e) (snd e) w0) as [w1|];
        [|discriminate]. cbn [option_map]. apply IH. apply render_rendered. }
  apply G. reflexivity.
Qed.

Lemma reachable_step (w w' : World) (e : Z * Event) :
  reachable w -> step w e = Some w' -> reachable w'.
Proof.
  intros [trace H] S. exists (trace ++ [e]).
  revert H. generalize initialWorld.
  induction trace as [|x rest IH]; intros w0; cbn [run app].
  - intros [= ->]. rewrite S. reflexivity.
  - destruct (step w0 x); [apply IH|discriminate].
Qed.

(** *** Consequences *)

Lemma reachable_text_found : reachable world_text_found.
Proof. exists text_found. vm_compute. reflexivity. Qed.

(** In every state the loop can reach, every closure waiting in a timer
    or at the recognition service was created while the session was
    active with no cycle in progress. So the test [if (state.isActive)] of
    a pending rescan never skips: whenever the timer fires, [processImage]
    is called. *)
Theorem pending_closures_saw_active_idle (w : World) :
  reachable w ->
  (forall tm, In tm (timers w) ->
     activeIdle (closureOf (callback tm))
     /\ forall cap w', runCallback (callback tm) cap w'
                       = processImage (closureOf (callback tm)) cap w')
  /\ (forall cy, In cy (pending w) -> activeIdle (closure cy)).
Proof.
  intros R. apply Inv_reachable in R. split.
  - intros tm H. pose proof (timers_activeIdle _ R) as G.
    rewrite Forall_forall in G. specialize (G tm H). cbv beta in G.
    split; [exact G|]. intros cap w'.
    destruct (callback tm) as [c|c]; cbn [runCallback closureOf] in *;
      [reflexivity|]. destruct G as [-> _]. reflexivity.
  - intros cy H. pose proof (pending_activeIdle _ R) as G.
    rewrite Forall_forall in G. exact (G cy H).
Qed.

Lemma pending_closures_saw_active_idle_witness :
  activeIdle (mkCaptured true false eng).
Proof.
  refine (proj1 (proj1 (pending_closures_saw_active_idle world_text_found
                          reachable_text_found)
                   (mkTimer 2 7000 (Rescan (mkCaptured true false eng))) _)).
  left. reflexivity.
Defined.

Lemma filter_at_most_one {A B} (f : A -> B) (p : A -> bool) (l : list A) :
  NoDup (map f l) ->
  (forall x y, In x l -> In y l -> p x = true -> p y = true -> f x = f y) ->
  (length (filter p l) <= 1)%nat.
Proof.
  induction l as [|x l IH]; cbn [map filter]; intros N S; [cbn; lia|].
  inversion N as [|? ? Nx Nl]; subst.
  assert (IHl : (length (filter p l) <= 1)%nat).
  { apply IH; [exact Nl|]. intros a b Ia Ib. apply S; right; assumption. }
  destruct (p x) eqn:Px; [|exact IHl].
  destruct (filter p l) as [|y r] eqn:Fl; [cbn; lia|].
  exfalso. apply Nx.
  assert (Iy : In y (filter p l)) by (rewrite Fl; left; reflexivity).
  apply filter_In in Iy as [Iy Py].
  rewrite (S x y); [apply in_map; exact Iy|left; reflexivity|right; exact Iy
                   |exact Px|exact Py].
Qed.

(** Thanks to the cleanup the auto-start effect returns, at most one of
    its timers is pending at any time, in every reachable state. *)
Theorem at_most_one_auto_start_timer (w : World) :
  reachable w -> (length (filter isAutoStart (timers w)) <= 1)%nat.
Proof.
  intros R. apply Inv_reachable in R.
  apply (filter_at_most_one timerId); [exact (ids_nodup _ R)|].
  intros x y Ix Iy Px Py.
  pose proof (auto_tracked _ R x Ix Px) as Ex.
  pose proof (auto_tracked _ R y Iy Py) as Ey.
  congruence.
Qed.

Lemma at_most_one_auto_start_timer_witness :
  (length (filter isAutoStart (timers world_text_found)) <= 1)%nat.
Proof.
  exact (at_most_one_auto_start_timer world_text_found reachable_text_found).
Defined.

Lemma clap_flips_isActive (w : World) :
  isActive (state (handleClapDetected w)) = negb (isActive (state w))
  /\ currentLanguage (state (handleClapDetected w)) = currentLanguage (state w).
Proof.
  unfold handleClapDetected, speakStatus.
  destruct (isActive (state w)); cbn [negb];
    destruct (speechSynthesis w) eqn:E; cbn; rewrite ?E;
    try destruct (processingTimeoutRef w); split; reflexivity.
Qed.

(** Two claps in a row bring [isActive] back to what it was, whatever
    else happened to the state before. *)
Theorem two_claps_restore_isActive (w w1 w2 : World) (t1 t2 : Z) :
  step w (t1, Clap) = Some w1 ->
  step w1 (t2, Clap) = Some w2 ->
  isActive (state w2) = isActive (state w)
  /\ isActive (state w1) = negb (isActive (state w)).
Proof.
  assert (G : forall a b t, step a (t, Clap) = Some b ->
                            isActive (state b) = negb (isActive (state a))).
  { intros a b t. unfold step, dispatch. cbn [fst snd].
    destruct (_ && _); [|discriminate]. cbn [option_map]. intros [= <-].
    destruct (render_keeps (handleClapDetected (with_now t a))) as (-> & _).
    destruct (clap_flips_isActive (with_now t a)) as [H _]. exact H. }
  intros S1 S2. rewrite (G _ _ _ S2), (G _ _ _ S1), negb_involutive.
  split; reflexivity.
Qed.

Definition world_clapped_once : World :=
  Eval vm_compute in the (step initialWorld (2000, Clap)).

Definition world_clapped_twice : World :=
  Eval vm_compute in the (step world_clapped_once (2500, Clap)).

Lemma two_claps_restore_isActive_witness :
  isActive (state world_clapped_twice) = isActive (state initialWorld)
  /\ isActive (state world_clapped_once) = negb (isActive (state initialWorld)).
Proof.
  apply (two_claps_restore_isActive initialWorld world_clapped_once
           world_clapped_twice 2000 2500); vm_compute; reflexivity.
Defined.

(** *** What a re-run of the effect leaves in the timer list *)

(** When the dependencies changed, the effect first clears its previous
    timer, which leaves no auto-start timer at all, and then adds a new
    one exactly when the session is active and idle. *)
Lemma autoStartEffect_runs (w : World) :
  Inv w ->
  Captured_eqb (capture_state (state w)) (rendered w) = false ->
  exists kept,
    timers (autoStartEffect w) =
      kept ++ (if isActive (state w) && negb (isProcessing (state w))
               then [mkTimer (nextTimerId w) (now w + 1000)
                       (AutoStart (capture_state (state w)))]
               else [])
    /\ (forall tm, In tm kept -> isAutoStart tm = false /\ In tm (timers w))
    /\ (forall id, effectTimer w = Some id ->
                   forall tm, In tm kept -> timerId tm <> id).
Proof.
  intros I E. unfold autoStartEffect. cbv zeta. rewrite E.
  destruct (cleanup_clears_auto_start w I) as [_ NA]. cbv zeta in NA.
  destruct (effectTimer w) as [timer|] eqn:T.
  - exists (filter (fun t => negb (timerId t =? timer)) (timers w)).
    split; [|split].
    + cbn. destruct (isActive (state w) && negb (isProcessing (state w)));
        cbn; [reflexivity|rewrite app_nil_r; reflexivity].
    + intros tm H. split; [exact (NA tm H)|].
      apply filter_In in H. apply H.
    + intros id [= <-] tm H. apply filter_In in H as [_ H].
      apply negb_true_iff, Z.eqb_neq in H. exact H.
  - exists (timers w). split; [|split].
    + destruct (isActive (state w) && negb (isProcessing (state w)));
        cbn; [reflexivity|rewrite app_nil_r; reflexivity].
    + intros tm H. split; [exact (NA tm H)|exact H].
    + discriminate.
Qed.

Lemma find_none_all {A} (p : A -> bool) (l : list A) :
  (forall x, In x l -> p x = false) -> find p l = None.
Proof.
  induction l as [|x l IH]; cbn [find]; intros H; [reflexivity|].
  rewrite (H x (or_introl eq_refl)). apply IH.
  intros y Hy. apply H. right. exact Hy.
Qed.

(** The deactivating branch of the toggle, field by field. *)
Lemma deactivate_frame (w : World) :
  isActive (state w) = true ->
  let w1 := handleClapDetected w in
  isActive (state w1) = false /\ isProcessing (state w1) = false
  /\ rendered w1 = rendered w /\ effectTimer w1 = effectTimer w
  /\ timers w1 =
       match processingTimeoutRef w with
       | Some id => filter (fun tm => negb (timerId tm =? id)) (timers w)
       | None => timers w
       end.
Proof.
  intros A. unfold handleClapDetected, speakStatus. rewrite A. cbn [negb].
  destruct (speechSynthesis w) eqn:E, (processingTimeoutRef w) eqn:R;
    cbn; rewrite ?R; cbn; repeat split; reflexivity.
Qed.

(** Deactivation leaves no way for a cycle to start by itself through
    the timers it knows: after the deactivating clap (and the render that
    follows) no auto-start timer is pending, the rescan held in
    processingTimeoutRef is gone, and no timer was added. *)
Theorem deactivation_cancels_known_timers (w w' : World) (t : Z) :
  reachable w ->
  isActive (state w) = true ->
  step w (t, Clap) = Some w' ->
  isActive (state w') = false
  /\ isProcessing (state w') = false
  /\ (forall tm, In tm (timers w') ->
        isAutoStart tm = false /\ In tm (timers w))
  /\ (forall id, processingTimeoutRef w = Some id -> findTimer id w' = None).
Proof.
  intros R A. pose proof (reachable_rendered w R) as Rd.
  apply Inv_reachable in R.
  unfold step, dispatch. cbn [fst snd].
  destruct (_ && _); [|discriminate]. cbn [option_map]. intros [= <-].
  set (w0 := with_now t w).
  assert (A0 : isActive (state w0) = true) by exact A.
  destruct (deactivate_frame w0 A0) as (S1 & S2 & S3 & S4 & S5).
  cbv zeta in *. set (w1 := handleClapDetected w0) in *.
  assert (I1 : Inv w1) by (apply Inv_handleClapDetected, Inv_with_now, R).
  destruct (render_keeps w1) as (St & _). rewrite St.
  split; [exact S1|]. split; [exact S2|].
  unfold render.
  destruct (cameraView_keeps w1) as (CS & _ & _ & _ & CT).
  assert (I2 : Inv (cameraView w1)).
  { apply (Inv_core w1); [apply core_cameraView|exact I1]. }
  assert (E : Captured_eqb (capture_state (state (cameraView w1)))
                           (rendered (cameraView w1)) = false).
  { rewrite CS, cameraView_rendered, S3. change (rendered w0) with (rendered w).
    rewrite Rd. unfold Captured_eqb, capture_state. cbn.
    rewrite S1. change (state w0) with (state w) in A0. rewrite A. reflexivity. }
  destruct (autoStartEffect_runs _ I2 E) as (kept & Tm & K & _).
  rewrite CS, S1 in Tm. cbn [andb] in Tm. rewrite app_nil_r in Tm.
  rewrite Tm. rewrite CT, S5 in K.
  change (processingTimeoutRef w0) with (processingTimeoutRef w) in K.
  change (timers w0) with (timers w) in K.
  split.
  - intros tm H. destruct (K tm H) as [NA In1]. split; [exact NA|].
    destruct (processingTimeoutRef w); [apply filter_In in In1; apply In1
                                       |exact In1].
  - intros id Ref. unfold findTimer. rewrite Tm. apply find_none_all.
    intros tm H. destruct (K tm H) as [_ In1]. rewrite Ref in In1.
    apply filter_In in In1 as [_ N]. apply negb_true_iff in N. exact N.
Qed.

Definition world_deactivated_after_scan : World :=
  Eval vm_compute in the (step world_text_found (4500, Clap)).

Lemma deactivation_cancels_known_timers_witness :
  isActive (state world_deactivated_after_scan) = false
  /\ findTimer 2 world_deactivated_after_scan = None.
Proof.
  destruct (deactivation_cancels_known_timers world_text_found
              world_deactivated_after_scan 4500 reachable_text_found
              eq_refl eq_refl) as (H1 & _ & _ & H4).
  split; [exact H1|]. apply H4. reflexivity.
Defined.

(** *** Changing the language *)

Lemma languageChange_frame (l : Language) (w : World) :
  let w1 := handleLanguageChange l w in
  state w1 = mkState (isActive (state w)) (isProcessing (state w))
               (recognizedText (state w)) l (status (state w))
               (error (state w))
  /\ pending w1 = pending w /\ rendered w1 = rendered w
  /\ now w1 = now w /\ nextTimerId w1 = nextTimerId w
  /\ effectTimer w1 = effectTimer w /\ timers w1 = timers w
  /\ speechSynthesis w1 =
       option_map (fun calls =>
                     calls ++ [mkUtterance
                                 (lit "Language changed to " ++ languageNames l)
                                 "en-US" (9 # 10) (8 # 10)])
                  (speechSynthesis w).
Proof.
  unfold handleLanguageChange, speakStatus. cbn.
  destruct (speechSynthesis w) eqn:E; cbn; rewrite ?E;
    repeat split; reflexivity.
Qed.

(** A language change does not interrupt a cycle in flight: the cycle
    stays pending, and when its text arrives it is spoken in the locale of
    the language the cycle started with, although [currentLanguage]
    already is the new one. The change itself is always announced in
    en-US. *)
Theorem language_change_spares_cycle_in_flight
  (w w1 w2 : World) (t1 t2 id : Z) (cy : Cycle) (l : Language)
  (text : jsstring) :
  findCycle id w = Some cy ->
  step w (t1, LanguageSelected l) = Some w1 ->
  step w1 (t2, RecognitionSettled id (Recognized text)) = Some w2 ->
  trim text <> [] ->
  findCycle id w1 = Some cy
  /\ currentLanguage (state w1) = l
  /\ currentLanguage (state w2) = l
  /\ speechSynthesis w1 =
       option_map (fun calls =>
                     calls ++ [mkUtterance
                                 (lit "Language changed to " ++ languageNames l)
                                 "en-US" (9 # 10) (8 # 10)])
                  (speechSynthesis w)
  /\ speechSynthesis w2 =
       option_map (fun calls =>
                     calls ++ [mkUtterance (trim text)
                                 (ttsLanguage (c_currentLanguage (closure cy)))
                                 (9 # 10) (8 # 10)])
                  (speechSynthesis w1).
Proof.
  intros F S1 S2 NE.
  assert (H1 : state w1 = mkState (isActive (state w)) (isProcessing (state w))
                 (recognizedText (state w)) l (status (state w))
                 (error (state w))
               /\ pending w1 = pending w
               /\ speechSynthesis w1 =
                    option_map (fun calls =>
                      calls ++ [mkUtterance
                                  (lit "Language changed to " ++ languageNames l)
                                  "en-US" (9 # 10) (8 # 10)])
                      (speechSynthesis w)).
  { revert S1. unfold step, dispatch. cbn [fst snd].
    destruct (_ && _); [|discriminate]. cbn [option_map]. intros [= <-].
    destruct (render_keeps (handleLanguageChange l (with_now t1 w)))
      as (-> & -> & _ & ->).
    destruct (languageChange_frame l (with_now t1 w))
      as (A & B & _ & _ & _ & _ & _ & C).
    repeat split; assumption. }
  destruct H1 as (St1 & P1 & Sp1).
  assert (F1 : findCycle id w1 = Some cy).
  { unfold findCycle in *. rewrite P1. exact F. }
  split; [exact F1|]. split; [rewrite St1; reflexivity|].
  destruct (step_RecognitionSettled w1 w2 t2 id cy _ F1 S2)
    as (w0 & Hst & Hsp & ->).
  destruct (render_keeps (processImage_resume (closure cy) (Recognized text) w0))
    as (-> & -> & _).
  destruct (resume_found (closure cy) text w0 NE) as (-> & -> & _).
  unfold spoken_after, say. rewrite Hst, Hsp, St1. cbn.
  repeat split; [exact Sp1].
Qed.

(** ... recognition of cycle 0 is still running when Hindi is selected
    at 3.5 s; the English text arrives at 4 s. *)
Definition world_language_changed : World :=
  Eval vm_compute in
    the (step world_first_cycle (3500, LanguageSelected hin)).

Definition world_spoken_in_old_locale : World :=
  Eval vm_compute in
    the (step world_language_changed
           (4000, RecognitionSettled 0 (Recognized "EXIT 12B"))).

Lemma language_change_spares_cycle_in_flight_witness :
  currentLanguage (state world_spoken_in_old_locale) = hin
  /\ speechSynthesis world_spoken_in_old_locale =
       option_map (fun calls =>
                     calls ++ [mkUtterance (trim (lit "EXIT 12B"))
                                 (ttsLanguage eng) (9 # 10) (8 # 10)])
                  (speechSynthesis world_language_changed).
Proof.
  destruct (language_change_spares_cycle_in_flight world_first_cycle
              world_language_changed world_spoken_in_old_locale 3500 4000 0
              (mkCycle 0 (mkCaptured true false eng)) hin "EXIT 12B"
              eq_refl eq_refl eq_refl)
    as (_ & _ & H3 & _ & H5); [vm_compute; discriminate|].
  split; [exact H3|exact H5].
Defined.

(** Selecting another language while the session is active and idle
    re-runs the auto-start effect: its previous timer is cleared and
    [processImage] is scheduled afresh, 1000 ms after the selection, with
    a closure that captured the new language. It is the only auto-start
    timer left, and cycles in flight are not touched. *)
Theorem language_change_restarts_auto_start
  (w w' : World) (t : Z) (l : Language) :
  reachable w ->
  isActive (state w) = true ->
  isProcessing (state w) = false ->
  l <> currentLanguage (state w) ->
  step w (t, LanguageSelected l) = Some w' ->
  let fresh := mkTimer (nextTimerId w) (t + 1000)
                 (AutoStart (mkCaptured true false l)) in
  In fresh (timers w')
  /\ (forall tm, In tm (timers w') -> isAutoStart tm = true -> tm = fresh)
  /\ (forall id, effectTimer w = Some id -> findTimer id w' = None)
  /\ pending w' = pending w.
Proof.
  intros R A P NL. pose proof (reachable_rendered w R) as Rd.
  pose proof (Inv_reachable w R) as I.
  unfold step, dispatch. cbn [fst snd].
  destruct (_ && _); [|discriminate]. cbn [option_map]. intros [= <-].
  set (w0 := with_now t w).
  destruct (languageChange_frame l w0) as (St & Pe & Re & Nw & Nx & Ef & Tm & _).
  cbv zeta in *. set (w1 := handleLanguageChange l w0) in *.
  assert (I1 : Inv w1).
  { apply Inv_handleLanguageChange, Inv_with_now, I. }
  destruct (render_keeps w1) as (_ & _ & _ & ->). rewrite Pe.
  unfold render.
  destruct (cameraView_keeps w1) as (CS & _ & _ & _ & CT).
  assert (I2 : Inv (cameraView w1)).
  { apply (Inv_core w1); [apply core_cameraView|exact I1]. }
  assert (E : Captured_eqb (capture_state (state (cameraView w1)))
                           (rendered (cameraView w1)) = false).
  { destruct (Captured_eqb _ _) eqn:E; [|reflexivity]. exfalso.
    apply Captured_eqb_eq in E. rewrite CS, cameraView_rendered, Re, St in E.
    change (rendered w0) with (rendered w) in E. rewrite Rd in E.
    apply (f_equal c_currentLanguage) in E. cbn in E. exact (NL E). }
  destruct (autoStartEffect_runs _ I2 E) as (kept & Tk & K & Kid).
  rewrite CS, St in Tk. cbn [isActive isProcessing] in Tk.
  change (state w0) with (state w) in Tk. rewrite A, P in Tk.
  cbn [andb negb] in Tk.
  rewrite cameraView_nextTimerId, cameraView_now, Nx, Nw in Tk.
  unfold capture_state in Tk. cbn in Tk. rewrite ?A, ?P in Tk.
  rewrite Tk.
  split; [apply in_or_app; right; left; reflexivity|].
  split; [|split; [|reflexivity]].
  - intros tm H Au. apply in_app_or in H as [H|[<-|[]]]; [|reflexivity].
    destruct (K tm H) as [NA _]. rewrite NA in Au. discriminate Au.
  - intros id Eid. unfold findTimer. rewrite Tk. apply find_none_all.
    intros tm H. apply in_app_or in H as [H|[<-|[]]].
    + apply Z.eqb_neq. apply (Kid id); [|exact H].
      pose proof (core_cameraView w1) as Cc. unfold core in Cc.
      injection Cc as _ _ Ce _ _. rewrite Ce, Ef. exact Eid.
    + cbn [timerId]. apply Z.eqb_neq.
      pose proof (effect_below _ I id Eid) as Lt.
      change (nextTimerId w0) with (nextTimerId w). lia.
Qed.

Lemma reachable_clapped_once : reachable world_clapped_once.
Proof. exists [(2000, Clap)]. vm_compute. reflexivity. Qed.

Definition world_hindi_selected : World :=
  Eval vm_compute in
    the (step world_clapped_once (2500, LanguageSelected hin)).

(** Hindi selected half a second after activation: the start moves from
    3000 to 3500. *)
Lemma language_change_restarts_auto_start_witness :
  In (mkTimer 2 3500 (AutoStart (mkCaptured true false hin)))
     (timers world_hindi_selected)
  /\ findTimer 1 world_hindi_selected = None.
Proof.
  destruct (language_change_restarts_auto_start world_clapped_once
              world_hindi_selected 2500 hin reachable_clapped_once
              eq_refl eq_refl) as (H1 & _ & H3 & _).
  - discriminate.
  - reflexivity.
  - split; [exact H1|]. apply H3. reflexivity.
Defined.

(** *** A frame that cannot be captured *)

(** When [captureImage] yields nothing (null, or an empty data string),
    the call that had passed the guard ends in the catch block in the
    same turn: the error is "Failed to capture image", the status is the
    error status, isProcessing is back to false, "Scanning" and then the
    error status were spoken, and no cycle is pending and no timer set
    because of it. *)
Theorem capture_failure_reported
  (c : Captured) (imageData : option jsstring) (w : World) :
  c_isActive c = true -> c_isProcessing c = false -> cameraRef w = true ->
  imageData = None \/ imageData = Some [] ->
  let w' := processImage c (CaptureResolved imageData) w in
  state w' = mkState (isActive (state w)) false (recognizedText (state w))
               (currentLanguage (state w))
               "Error during text recognition. Please try again."
               (Some (lit "Failed to capture image"))
  /\ speechSynthesis w' =
       option_map
         (fun calls =>
            calls ++ [mkUtterance "Scanning for text, please wait." "en-US"
                        (9 # 10) (8 # 10);
                      mkUtterance
                        "Error during text recognition. Please try again."
                        "en-US" (9 # 10) (8 # 10)])
         (speechSynthesis w)
  /\ pending w' = pending w /\ timers w' = timers w
  /\ processingTimeoutRef w' = processingTimeoutRef w.
Proof.
  intros A P C H. unfold processImage. rewrite A, P, C. cbn [negb orb].
  assert (F : match imageData with
              | Some d => negb (truthy d)
              | None => true
              end = true) by (destruct H as [-> | ->]; reflexivity).
  cbv zeta. rewrite F.
  unfold processImage_catch, speakStatus. cbn.
  destruct (speechSynthesis w) eqn:E; cbn; rewrite ?E; cbn; rewrite ?E;
    rewrite <- ?app_assoc; repeat split; reflexivity.
Qed.

Lemma capture_failure_reported_witness :
  error (state (processImage (mkCaptured true false eng)
                  (CaptureResolved None) world_clapped_once))
  = Some (lit "Failed to capture image").
Proof.
  destruct (capture_failure_reported (mkCaptured true false eng) None
              world_clapped_once eq_refl eq_refl eq_refl
              (or_introl eq_refl)) as (H & _).
  rewrite H. reflexivity.
Defined.

(** *** The status line of a scan *)

(** Whatever the recognition service returns, the status line stays
    within 65 code units: a text of up to 50 code units is shown whole,
    a longer one is cut to 50 and followed by three dots. *)
Theorem found_status_bounded (cleanText : jsstring) :
  (length (foundStatus cleanText) <= 65)%nat
  /\ foundStatus cleanText =
       if (length cleanText <=? 50)%nat
       then lit "Found text: " ++ cleanText
       else lit "Found text: " ++ firstn 50 cleanText ++ lit "...".
Proof.
  unfold foundStatus, substring0. split.
  - rewrite !length_app, length_firstn.
    change (length (lit "Found text: ")) with 12%nat.
    destruct (50 <? length cleanText)%nat;
      [change (length (lit "...")) with 3%nat
      |change (length (lit "")) with 0%nat]; lia.
  - destruct (length cleanText <=? 50)%nat eqn:L.
    + apply Nat.leb_le in L.
      assert (N : (50 <? length cleanText)%nat = false)
        by (apply Nat.ltb_ge; exact L).
      rewrite N, firstn_all2 by exact L.
      change (lit "") with (@nil code_unit). rewrite app_nil_r. reflexivity.
    + apply Nat.leb_gt in L.
      assert (N : (50 <? length cleanText)%nat = true)
        by (apply Nat.ltb_lt; exact L).
      rewrite N. reflexivity.
Qed.

(** *** Announcements are only ever added *)

(** [w'] has the speech calls of [w] and at most [n] more. *)
Definition grows (n : nat) (w w' : World) : Prop :=
  exists more,
    (length more <= n)%nat
    /\ speechSynthesis w' =
       option_map (fun calls => calls ++ more) (speechSynthesis w).

Lemma grows_same (w w' : World) :
  speechSynthesis w' = speechSynthesis w -> grows 0 w w'.
Proof.
  intros H. exists []. split; [cbn; lia|]. rewrite H.
  destruct (speechSynthesis w); cbn; [rewrite app_nil_r|]; reflexivity.
Qed.

Lemma grows_speak (text language : jsstring) (w : World) :
  grows 1 w (speakStatus text language w).
Proof.
  exists [say text language]. split; [cbn; lia|]. apply speakStatus_spoken.
Qed.

Lemma grows_trans (a b : nat) (w w1 w2 : World) :
  grows a w w1 -> grows b w1 w2 -> grows (a + b) w w2.
Proof.
  intros (m1 & L1 & E1) (m2 & L2 & E2). exists (m1 ++ m2). split.
  - rewrite length_app. lia.
  - rewrite E2, E1. destruct (speechSynthesis w); cbn;
      [rewrite app_assoc|]; reflexivity.
Qed.

Lemma grows_le (a b : nat) (w w' : World) :
  (a <= b)%nat -> grows a w w' -> grows b w w'.
Proof. intros L (m & Lm & E). exists m. split; [lia|exact E]. Qed.

Lemma grows_catch (e : Thrown) (w : World) : grows 1 w (processImage_catch e w).
Proof.
  destruct (catch_failed e w) as (_ & H & _).
  eexists. split; [|exact H]. cbn. lia.
Qed.

Lemma grows_resume (c : Captured) (r : RecognitionResult) (w : World) :
  grows 1 w (processImage_resume c r w).
Proof.
  destruct r as [text|e]; [|apply grows_catch].
  destruct (trim text) eqn:T.
  - destruct (resume_nothing c text w T) as (_ & H & _).
    eexists. split; [|exact H]. cbn. lia.
  - assert (NE : trim text <> []) by (rewrite T; discriminate).
    destruct (resume_found c text w NE) as (_ & H & _).
    eexists. split; [|exact H]. cbn. lia.
Qed.

Lemma grows_processImage (c : Captured) (cap : CaptureResult) (w : World) :
  grows 2 w (processImage c cap w).
Proof.
  unfold processImage.
  destruct (negb (c_isActive c) || c_isProcessing c || negb (cameraRef w));
    [apply (grows_le 0); [lia|apply grows_same; reflexivity]|].
  cbv zeta.
  match goal with
  | |- context [speakStatus ?t ?l ?w1] => set (w2 := speakStatus t l w1)
  end.
  assert (G : grows 1 w w2).
  { apply (grows_trans 0 1 w (setState
             (fun prev => mkState (isActive prev) true (recognizedText prev)
                            (currentLanguage prev) "Scanning for text..."
                            (error prev)) w));
      [apply grows_same; reflexivity|apply grows_speak]. }
  destruct cap as [imageData|e].
  - destruct (match imageData with
              | Some d => negb (truthy d)
              | None => true
              end).
    + apply (grows_trans 1 1 w w2); [exact G|apply grows_catch].
    + apply (grows_trans 1 1 w w2); [exact G|].
      apply (grows_le 0); [lia|apply grows_same; reflexivity].
  - apply (grows_trans 1 1 w w2); [exact G|apply grows_catch].
Qed.

Lemma grows_handleClapDetected (w : World) : grows 1 w (handleClapDetected w).
Proof.
  unfold handleClapDetected.
  destruct (negb (isActive (state w))); cbv zeta.
  - apply (grows_trans 1 0 w (speakStatus
             "SignBoard Reader activated. Point camera at text." en_US w));
      [apply grows_speak|apply grows_same; reflexivity].
  - set (w1 := speakStatus "SignBoard Reader deactivated." en_US w).
    apply (grows_trans 1 0 w w1); [apply grows_speak|].
    apply grows_same. destruct (processingTimeoutRef w1); reflexivity.
Qed.

Lemma grows_handleLanguageChange (l : Language) (w : World) :
  grows 1 w (handleLanguageChange l w).
Proof.
  destruct (languageChange_frame l w) as (_ & _ & _ & _ & _ & _ & _ & H).
  eexists. split; [|exact H]. cbn. lia.
Qed.

(** The component only ever adds to the speech engine's queue: every
    event leaves all earlier [speak] calls in place and adds at most two
    (it never calls [cancel]); without a speech engine nothing is queued
    at all. *)
Theorem speech_calls_only_added (w w' : World) (e : Z * Event) :
  step w e = Some w' ->
  exists more,
    (length more <= 2)%nat
    /\ speechSynthesis w' =
       option_map (fun calls => calls ++ more) (speechSynthesis w).
Proof.
  unfold step. destruct (dispatch (fst e) (snd e) w) as [w1|] eqn:D;
    [|discriminate]. cbn [option_map]. intros [= <-].
  destruct (render_keeps w1) as (_ & -> & _).
  change (grows 2 w w1).
  revert D. unfold dispatch. destruct (_ && _); [|discriminate]. cbv zeta.
  set (w0 := with_now (fst e) w).
  assert (G0 : grows 0 w w0) by (apply grows_same; reflexivity).
  destruct (snd e) as [|l|id cap|id r|].
  - intros [= <-]. apply (grows_trans 0 2 w w0 _ G0).
    apply (grows_le 1); [lia|apply grows_handleClapDetected].
  - intros [= <-]. apply (grows_trans 0 2 w w0 _ G0).
    apply (grows_le 1); [lia|apply grows_handleLanguageChange].
  - destruct (findTimer id w0) as [tm|]; [|discriminate].
    destruct (due tm =? fst e); [|discriminate]. intros [= <-].
    apply (grows_trans 0 2 w (clearTimeout id w0));
      [apply grows_same; reflexivity|].
    destruct (callback tm) as [c|c]; cbn [runCallback].
    + apply grows_processImage.
    + destruct (c_isActive c); [apply grows_processImage|].
      apply (grows_le 0); [lia|apply grows_same; reflexivity].
  - destruct (findCycle id w0) as [cy|]; [|discriminate]. intros [= <-].
    match goal with
    | |- grows 2 w (processImage_resume _ _ ?x) =>
        apply (grows_trans 0 2 w x); [apply grows_same; reflexivity|]
    end.
    apply (grows_le 1); [lia|apply grows_resume].
  - destruct (cameraExit w0) as [x|]; [|discriminate].
    destruct (x =? fst e); [|discriminate]. intros [= <-].
    apply (grows_le 0); [lia|apply grows_same; reflexivity].
Qed.

Lemma speech_calls_only_added_witness :
  exists more,
    (length more <= 2)%nat
    /\ speechSynthesis world_failed =
       option_map (fun calls => calls ++ more)
                  (speechSynthesis world_first_cycle).
Proof.
  apply (speech_calls_only_added world_first_cycle world_failed
           (4000, RecognitionSettled 0
                    (RecognitionRejected (ErrorObject "Network error")))).
  vm_compute. reflexivity.
Defined.

(** *** Auto-start timers are never stale *)

(** Unlike a rescan, a pending auto-start timer always holds the closure
    of the latest render: in every reachable state its captured values are
    those of the current state. So such a timer is pending only while the
    session is active and no cycle is marked in progress, and the cycle it
    starts uses the language selected at that time. *)
Theorem auto_start_closure_is_current (w : World) (tm : Timer) :
  reachable w ->
  In tm (timers w) ->
  isAutoStart tm = true ->
  callback tm = AutoStart (capture_state (state w))
  /\ isActive (state w) = true
  /\ isProcessing (state w) = false.
Proof.
  intros R H A. pose proof (reachable_rendered w R) as Rd.
  apply Inv_reachable in R.
  pose proof (auto_current _ R tm H A) as C. rewrite Rd in C.
  pose proof (timers_activeIdle _ R) as G. rewrite Forall_forall in G.
  specialize (G tm H). cbv beta in G. rewrite C in G. destruct G as [G1 G2].
  unfold isAutoStart in A. destruct (callback tm) as [c|c];
    [|discriminate A]. cbn [closureOf] in C. subst c.
  repeat split; assumption.
Qed.

Lemma auto_start_closure_is_current_witness :
  isActive (state world_text_found) = true
  /\ isProcessing (state world_text_found) = false.
Proof.
  refine (proj2 (auto_start_closure_is_current world_text_found
                   (mkTimer 3 5000 (AutoStart (mkCaptured true false eng)))
                   reachable_text_found _ eq_refl)).
  right. left. reflexivity.
Defined.

(** The retry after a failed recognition, on the run of C2. *)
Lemma failure_schedules_auto_start_witness :
  In (mkTimer (nextTimerId world_first_cycle) (4000 + 1000)
        (AutoStart (mkCaptured true false
                      (currentLanguage (state world_first_cycle)))))
     (timers world_failed).
Proof.
  apply (failure_schedules_auto_start world_first_cycle world_failed 4000 0
           (mkCycle 0 (mkCaptured true false eng))
           (ErrorObject "Network error")); reflexivity.
Defined.

(** A full-scale buffer of the analyser. *)
Lemma double_comparison_exact_witness :
  PrimFloat.ltb AudioDetector.clapThreshold_double
                (AudioDetector.normalizedLevel_double loud)
  = AudioDetector.gtQ (AudioDetector.normalizedLevel loud)
                      AudioDetector.clapThreshold.
Proof.
  apply (double_comparison_exact loud).
  - reflexivity.
  - apply Forall_forall. intros x Hx. apply repeat_spec in Hx. subst. lia.
Defined.

End LoopInvariants.

(** ** SignboardReader.tsx: the language a cycle speaks in *)

Section CycleLanguage.

Import SignboardReader.

(** The cycles awaiting recognition and the next cycle id. *)
Definition cycles (w : World) := (pending w, nextCycleId w).

Lemma cycles_speakStatus (text language : jsstring) (w : World) :
  cycles (speakStatus text language w) = cycles w.
Proof. unfold speakStatus. destruct (speechSynthesis w); reflexivity. Qed.

Lemma cycles_catch (e : Thrown) (w : World) :
  cycles (processImage_catch e w) = cycles w.
Proof. unfold processImage_catch. rewrite cycles_speakStatus. reflexivity. Qed.

Lemma cycles_resume (c : Captured) (r : RecognitionResult) (w : World) :
  cycles (processImage_resume c r w) = cycles w.
Proof.
  destruct r as [text|e]; cbn [processImage_resume]; [|apply cycles_catch].
  destruct (0 <? length (trim text))%nat; cbv zeta;
    match goal with
    | |- cycles (let '(_, _) := setTimeout _ _ ?w2 in _) = _ =>
        change (cycles w2 = cycles w)
    end;
    rewrite cycles_speakStatus; reflexivity.
Qed.

Lemma cycles_handleClapDetected (w : World) :
  cycles (handleClapDetected w) = cycles w.
Proof.
  unfold handleClapDetected. destruct (negb (isActive (state w))); cbv zeta.
  - change (cycles (speakStatus
              "SignBoard Reader activated. Point camera at text." en_US w)
            = cycles w). apply cycles_speakStatus.
  - set (w1 := speakStatus "SignBoard Reader deactivated." en_US w).
    assert (E : cycles w1 = cycles w) by apply cycles_speakStatus.
    destruct (processingTimeoutRef w1); exact E.
Qed.

Lemma cycles_handleLanguageChange (l : Language) (w : World) :
  cycles (handleLanguageChange l w) = cycles w.
Proof.
  unfold handleLanguageChange. cbv zeta. rewrite cycles_speakStatus.
  reflexivity.
Qed.

Lemma cycles_render (w : World) : cycles (render w) = cycles w.
Proof.
  unfold render, autoStartEffect, cameraView. cbv zeta.
  destruct (isActive (state w)) eqn:A;
    [|destruct (cameraRef w); [destruct (cameraExit w)|]];
    cbn; rewrite ?A;
    match goal with
    | |- context [Captured_eqb ?a ?b] => destruct (Captured_eqb a b)
    end; try reflexivity;
    destruct (effectTimer w); cbn; rewrite ?A; cbn;
    try destruct (isProcessing (state w)); reflexivity.
Qed.

(** [processImage] either leaves the cycles alone or appends one, with
    the closure that was called. *)
Lemma cycles_processImage (c : Captured) (cap : CaptureResult) (w : World) :
  cycles (processImage c cap w) = cycles w
  \/ cycles (processImage c cap w)
     = (pending w ++ [mkCycle (nextCycleId w) c], nextCycleId w + 1).
Proof.
  unfold processImage.
  destruct (negb (c_isActive c) || c_isProcessing c || negb (cameraRef w));
    [left; reflexivity|].
  cbv zeta.
  match goal with
  | |- context [speakStatus ?t ?l ?w1] => set (w2 := speakStatus t l w1)
  end.
  assert (E : cycles w2 = cycles w).
  { subst w2. rewrite cycles_speakStatus. reflexivity. }
  destruct cap as [imageData|e].
  - destruct (match imageData with
              | Some d => negb (truthy d)
              | None => true
              end).
    + left. rewrite cycles_catch. exact E.
    + right. unfold cycles in *. cbn. injection E as -> ->. reflexivity.
  - left. rewrite cycles_catch. exact E.
Qed.

(** Cycle ids are handed out in increasing order. *)
Definition cycleIdsBelow (w : World) : Prop :=
  Forall (fun cy => cycleId cy < nextCycleId w) (pending w).

Lemma find_app_some {A} (p : A -> bool) (l more : list A) (x : A) :
  find p l = Some x -> find p (l ++ more) = Some x.
Proof.
  induction l as [|y l IH]; cbn [find app]; [discriminate|].
  destruct (p y); [auto|exact IH].
Qed.

Lemma find_app_none {A} (p : A -> bool) (l more : list A) :
  find p l = None -> find p (l ++ more) = find p more.
Proof.
  induction l as [|y l IH]; cbn [find app]; [reflexivity|].
  destruct (p y); [discriminate|exact IH].
Qed.

Lemma find_cycle_filter (cid id : Z) (l : list Cycle) :
  id <> cid ->
  find (fun c => cycleId c =? cid)
       (filter (fun c => negb (cycleId c =? id)) l)
  = find (fun c => cycleId c =? cid) l.
Proof.
  intros N. induction l as [|cy l IH]; [reflexivity|]. cbn [filter find].
  destruct (cycleId cy =? id) eqn:E; cbn [negb find].
  - apply Z.eqb_eq in E.
    assert (F : (cycleId cy =? cid) = false) by (apply Z.eqb_neq; lia).
    rewrite F. exact IH.
  - destruct (cycleId cy =? cid); [reflexivity|exact IH].
Qed.

(** A pending cycle stays pending, with the closure it was created with,
    through every event but its own result. *)
Lemma cycle_stays_pending (w w' : World) (e : Z * Event) (cid : Z)
  (cy : Cycle) :
  cycleIdsBelow w ->
  (forall r, snd e <> RecognitionSettled cid r) ->
  step w e = Some w' ->
  cycleIdsBelow w'
  /\ (findCycle cid w = Some cy -> findCycle cid w' = Some cy).
Proof.
  intros B NR. unfold step.
  destruct (dispatch (fst e) (snd e) w) as [w1|] eqn:D; [|discriminate].
  cbn [option_map]. intros [= <-].
  assert (G : cycleIdsBelow w1
              /\ (findCycle cid w = Some cy -> findCycle cid w1 = Some cy)).
  { revert D. unfold dispatch. destruct (_ && _); [|discriminate]. cbv zeta.
    set (w0 := with_now (fst e) w).
    destruct (snd e) as [|l|id cap|id r|].
    - intros [= <-]. unfold cycleIdsBelow, findCycle.
      pose proof (cycles_handleClapDetected w0) as E. unfold cycles in E.
      injection E as -> ->. split; [exact B|auto].
    - intros [= <-]. unfold cycleIdsBelow, findCycle.
      pose proof (cycles_handleLanguageChange l w0) as E. unfold cycles in E.
      injection E as -> ->. split; [exact B|auto].
    - destruct (findTimer id w0) as [tm|]; [|discriminate].
      destruct (due tm =? fst e); [|discriminate]. intros [= <-].
      set (x := clearTimeout id w0).
      assert (K : forall c,
                 cycleIdsBelow (processImage c cap x)
                 /\ (findCycle cid w = Some cy ->
                     findCycle cid (processImage c cap x) = Some cy)).
      { intros c. unfold cycleIdsBelow, findCycle.
        destruct (cycles_processImage c cap x) as [E|E];
          unfold cycles in E; injection E as -> ->.
        - split; [exact B|auto].
        - split.
          + apply Forall_app. split.
            * eapply Forall_impl; [|exact B]. cbv beta. cbn. intros; lia.
            * repeat constructor. cbn. lia.
          + intros F. apply find_app_some. exact F. }
      destruct (callback tm) as [c|c]; cbn [runCallback]; [apply K|].
      destruct (c_isActive c); [apply K|]. split; [exact B|auto].
    - destruct (findCycle id w0) as [cy0|]; [|discriminate]. intros [= <-].
      assert (N : id <> cid).
      { intros ->. exact (NR r eq_refl). }
      unfold cycleIdsBelow, findCycle.
      pose proof (cycles_resume (closure cy0) r
                    (with_pending
                       (filter (fun c => negb (cycleId c =? id)) (pending w0))
                       (nextCycleId w0) w0)) as E.
      unfold cycles in E. injection E as -> ->. cbn. split.
      + apply Forall_filter. exact B.
      + intros F. rewrite find_cycle_filter by exact N. exact F.
    - destruct (cameraExit w0) as [x|]; [|discriminate].
      destruct (x =? fst e); [|discriminate]. intros [= <-].
      split; [exact B|auto]. }
  unfold cycleIdsBelow, findCycle in *.
  pose proof (cycles_render w1) as E. unfold cycles in E.
  injection E as -> ->. exact G.
Qed.

Lemma cycleIdsBelow_step (w w' : World) (e : Z * Event) :
  cycleIdsBelow w -> step w e = Some w' -> cycleIdsBelow w'.
Proof.
  intros B S.
  refine (proj1 (cycle_stays_pending w w' e
                   (match snd e with
                    | RecognitionSettled id _ => id + 1
                    | _ => 0
                    end)
                   (mkCycle 0 (capture_state initialState)) B _ S)).
  destruct (snd e); intros r0; try discriminate.
  intros [= H _]. lia.
Qed.

Lemma cycleIdsBelow_run (trace : list (Z * Event)) (w w' : World) :
  cycleIdsBelow w -> run w trace = Some w' -> cycleIdsBelow w'.
Proof.
  revert w; induction trace as [|e rest IH]; intros w B; cbn [run].
  - intros [= <-]. exact B.
  - destruct (step w e) as [w1|] eqn:S; [|discriminate].
    apply IH. exact (cycleIdsBelow_step w w1 e B S).
Qed.

Lemma cycleIdsBelow_reachable (w : World) : reachable w -> cycleIdsBelow w.
Proof.
  intros [trace H]. apply (cycleIdsBelow_run trace initialWorld); [|exact H].
  constructor.
Qed.

(** Events other than the result of cycle [cid]. *)
Definition otherThanResultOf (cid : Z) (e : Z * Event) : Prop :=
  forall r, snd e <> RecognitionSettled cid r.

Lemma cycle_stays_pending_run (trace : list (Z * Event)) (w w' : World)
  (cid : Z) (cy : Cycle) :
  cycleIdsBelow w ->
  Forall (otherThanResultOf cid) trace ->
  findCycle cid w = Some cy ->
  run w trace = Some w' ->
  findCycle cid w' = Some cy.
Proof.
  revert w; induction trace as [|e rest IH]; intros w B O F; cbn [run].
  - intros [= <-]. exact F.
  - destruct (step w e) as [w1|] eqn:S; [|discriminate].
    inversion O as [|? ? Oe Orest]; subst.
    destruct (cycle_stays_pending w w1 e cid cy B Oe S) as [B1 F1].
    apply (IH w1 B1 Orest (F1 F)).
Qed.

(** A timer that fires with a frame, while the camera view is mounted,
    starts a cycle: it is pending afterwards under the next cycle id,
    with the closure the timer held. *)
Lemma timer_starts_cycle (w0 w1 : World) (t0 id : Z) (tm : Timer)
  (img : jsstring) :
  reachable w0 ->
  findTimer id w0 = Some tm ->
  cameraRef w0 = true ->
  img <> [] ->
  step w0 (t0, TimerFired id (CaptureResolved (Some img))) = Some w1 ->
  findCycle (nextCycleId w0) w1
    = Some (mkCycle (nextCycleId w0) (closureOf (callback tm)))
  /\ cycleIdsBelow w1.
Proof.
  intros R F C NE S.
  pose proof (cycleIdsBelow_reachable w0 R) as B.
  split; [|exact (cycleIdsBelow_step w0 w1 _ B S)].
  pose proof (Inv_reachable w0 R) as I.
  destruct (findTimer_In id w0 tm F) as [Itm _].
  pose proof (timers_activeIdle _ I) as G. rewrite Forall_forall in G.
  destruct (G tm Itm) as [Ga Gp].
  revert S. unfold step, dispatch. cbn [fst snd].
  destruct (_ && _); [|discriminate]. cbv zeta.
  change (findTimer id (with_now t0 w0)) with (findTimer id w0). rewrite F.
  destruct (due tm =? t0); [|discriminate]. cbn [option_map]. intros [= <-].
  unfold findCycle.
  match goal with
  | |- find _ (pending (render ?x)) = _ =>
      pose proof (cycles_render x) as E; unfold cycles in E;
      injection E as -> _
  end.
  assert (P : pending (processImage (closureOf (callback tm))
                         (CaptureResolved (Some img))
                         (clearTimeout id (with_now t0 w0)))
              = pending w0
                  ++ [mkCycle (nextCycleId w0) (closureOf (callback tm))]).
  { unfold processImage. rewrite Ga, Gp. cbn [negb orb cameraRef clearTimeout
      with_timers with_now]. rewrite C. cbn [negb].
    destruct img as [|c0 img']; [congruence|]. cbn [truthy negb].
    cbv zeta. unfold updateStatus.
    match goal with
    | |- context [speakStatus ?t ?l ?w1] =>
        pose proof (cycles_speakStatus t l w1) as E; unfold cycles in E;
        injection E as E1 E2
    end.
    cbn [pending nextCycleId with_pending setState] in *.
    rewrite E1, E2. reflexivity. }
  assert (Q : pending (runCallback (callback tm) (CaptureResolved (Some img))
                         (clearTimeout id (with_now t0 w0)))
              = pending w0
                  ++ [mkCycle (nextCycleId w0) (closureOf (callback tm))]).
  { destruct (callback tm) as [c|c]; cbn [runCallback closureOf] in *;
      [exact P|]. rewrite Ga. exact P. }
  rewrite Q. rewrite find_app_none.
  - cbn [find cycleId]. rewrite Z.eqb_refl. reflexivity.
  - apply find_none_all. intros cy Hcy.
    unfold cycleIdsBelow in B. rewrite Forall_forall in B.
    specialize (B cy Hcy). cbv beta in B. apply Z.eqb_neq. lia.
Qed.

(** C7 as stated fails: cycle 0 was started with English; Hindi is
    selected at 3.5 s while the cycle is being recognised, so Hindi is the
    active language when the text arrives at 4 s, and the text is spoken
    with the locale en-US, not hi-IN. *)
Lemma C7_spoken_locale_not_of_active_language :
  run initialWorld (first_cycle ++ [(3500, LanguageSelected hin)])
    = Some world_language_changed
  /\ currentLanguage (state world_language_changed) = hin
  /\ findCycle 0 world_language_changed
     = Some (mkCycle 0 (mkCaptured true false eng))
  /\ step world_language_changed
       (4000, RecognitionSettled 0 (Recognized "EXIT 12B"))
     = Some world_spoken_in_old_locale
  /\ speechSynthesis world_spoken_in_old_locale
     = option_map (fun calls =>
                     calls ++ [mkUtterance "EXIT 12B" "en-US" (9 # 10) (8 # 10)])
                  (speechSynthesis world_language_changed)
  /\ speechSynthesis world_spoken_in_old_locale
     <> option_map (fun calls =>
                      calls ++ [mkUtterance "EXIT 12B" "hi-IN" (9 # 10) (8 # 10)])
                   (speechSynthesis world_language_changed).
Proof.
  repeat split; try (vm_compute; reflexivity).
  intros H. vm_compute in H. discriminate H.
Qed.

(** C7 (as amended). For every cycle that a timer starts while its
    closure holds the selected language (always so for the timer of the
    auto-start effect) and whose recognition result has non-empty trimmed
    text: whatever happens in between, and whatever language is selected
    when the result arrives, exactly one speak call is made, carrying the
    full trimmed text and the locale of the language that was selected
    when the cycle started, under eng -> en-US, hin -> hi-IN, tel -> te-IN;
    recognizedText becomes that text, status is "Found text: " followed by
    its first 50 code units (and "..." when there are more), and
    processing is set to false. *)
Theorem C7_found_text_spoken_in_locale_of_cycle_start
  (w0 w1 w w' : World) (t0 t id : Z) (tm : Timer) (img text : jsstring)
  (trace : list (Z * Event)) :
  reachable w0 ->
  findTimer id w0 = Some tm ->
  isAutoStart tm = true
    \/ c_currentLanguage (closureOf (callback tm)) = currentLanguage (state w0) ->
  cameraRef w0 = true ->
  img <> [] ->
  step w0 (t0, TimerFired id (CaptureResolved (Some img))) = Some w1 ->
  run w1 trace = Some w ->
  Forall (otherThanResultOf (nextCycleId w0)) trace ->
  step w (t, RecognitionSettled (nextCycleId w0) (Recognized text)) = Some w' ->
  trim text <> [] ->
  let cleanText := trim text in
  let locale := match currentLanguage (state w0) with
                | eng => lit "en-US"
                | hin => lit "hi-IN"
                | tel => lit "te-IN"
                end in
  speechSynthesis w' =
    option_map (fun calls =>
                  calls ++ [mkUtterance cleanText locale (9 # 10) (8 # 10)])
               (speechSynthesis w)
  /\ recognizedText (state w') = cleanText
  /\ status (state w') =
       lit "Found text: " ++ firstn 50 cleanText
         ++ (if (50 <? length cleanText)%nat then lit "..." else [])
  /\ isProcessing (state w') = false.
Proof.
  intros R F L C NE S1 Rn O S2 NT cleanText locale.
  destruct (timer_starts_cycle w0 w1 t0 id tm img R F C NE S1) as [F1 B1].
  pose proof (cycle_stays_pending_run trace w1 w _ _ B1 O F1 Rn) as F2.
  destruct (step_RecognitionSettled w w' t _ _ _ F2 S2)
    as (x & Hst & Hsp & ->).
  cbn [closure].
  destruct (render_keeps
              (processImage_resume (closureOf (callback tm)) (Recognized text) x))
    as (-> & -> & _).
  destruct (resume_found (closureOf (callback tm)) text x NT) as (-> & -> & _).
  assert (Lang : c_currentLanguage (closureOf (callback tm))
                 = currentLanguage (state w0)).
  { destruct L as [A|E]; [|exact E].
    destruct (findTimer_In id w0 tm F) as [Itm _].
    rewrite (auto_current _ (Inv_reachable w0 R) tm Itm A).
    rewrite (reachable_rendered w0 R). reflexivity. }
  unfold spoken_after, say, ttsLanguage. rewrite Lang, Hsp.
  subst locale cleanText. cbn [recognizedText status isProcessing].
  unfold foundStatus, substring0.
  destruct (currentLanguage (state w0)); repeat split; reflexivity.
Qed.

(** The auto-start timer starts cycle 0 with English at 3 s, Hindi is
    selected at 3.5 s, the text arrives at 4 s and is spoken in en-US. *)
Lemma C7_found_text_spoken_in_locale_of_cycle_start_witness :
  speechSynthesis world_spoken_in_old_locale =
    option_map (fun calls =>
                  calls ++ [mkUtterance (trim (lit "EXIT 12B")) "en-US"
                              (9 # 10) (8 # 10)])
               (speechSynthesis world_language_changed)
  /\ recognizedText (state world_spoken_in_old_locale) = trim (lit "EXIT 12B").
Proof.
  destruct (C7_found_text_spoken_in_locale_of_cycle_start
              world_clapped_once world_first_cycle world_language_changed
              world_spoken_in_old_locale 3000 4000 1
              (mkTimer 1 3000 (AutoStart (mkCaptured true false eng)))
              (lit "data:image/png;base64,iVBORw0KGgo=") "EXIT 12B"
              [(3500, LanguageSelected hin)]
              reachable_clapped_once eq_refl (or_introl eq_refl) eq_refl)
    as (H1 & H2 & _).
  - discriminate.
  - reflexivity.
  - reflexivity.
  - repeat constructor. intros r. discriminate.
  - reflexivity.
  - vm_compute. discriminate.
  - split; [exact H1|exact H2].
Defined.

End CycleLanguage.

(** ** SignboardReader.tsx: after a scan that finds no text *)

Section EmptyScan.

Import SignboardReader.

(** ... or the recognition returns only white space at 4 s. *)
Definition world_no_text : World :=
  Eval vm_compute in
    the (step world_first_cycle (4000, RecognitionSettled 0 (Recognized "  "))).

Definition world_no_text_restarted : World :=
  Eval vm_compute in the (step world_no_text (5000, TimerFired 3 frame)).

Definition world_no_text_overlapping : World :=
  Eval vm_compute in
    the (step world_no_text_restarted (5500, TimerFired 2 frame)).

(** C9, evaluated on an active session. The continuation does what the
    claim says: the status is "No text found. Try adjusting the camera
    position.", processing is false, that status is spoken and a rescan is
    set 1500 ms ahead (due at 5.5 s). But the render that follows sees
    isProcessing change and re-runs the auto-start effect, which sets a
    timer due at 5 s: the next cycle starts 1000 ms after the result, not
    1500 ms, and at 5.5 s the rescan starts a second cycle while that one
    is still being recognised. *)
Theorem C9_next_cycle_starts_after_1000_not_1500 :
  run initialWorld first_cycle = Some world_first_cycle
  /\ isActive (state world_first_cycle) = true
  /\ step world_first_cycle (4000, RecognitionSettled 0 (Recognized "  "))
     = Some world_no_text
  /\ status (state world_no_text)
     = lit "No text found. Try adjusting the camera position."
  /\ isProcessing (state world_no_text) = false
  /\ speechSynthesis world_no_text
     = option_map
         (fun calls =>
            calls ++ [mkUtterance
                        "No text found. Try adjusting the camera position."
                        "en-US" (9 # 10) (8 # 10)])
         (speechSynthesis world_first_cycle)
  /\ processingTimeoutRef world_no_text = Some 2
  /\ timers world_no_text
     = [mkTimer 2 (4000 + 1500) (Rescan (mkCaptured true false eng));
        mkTimer 3 (4000 + 1000) (AutoStart (mkCaptured true false eng))]
  /\ step world_no_text (5000, TimerFired 3 frame)
     = Some world_no_text_restarted
  /\ isProcessing (state world_no_text_restarted) = true
  /\ pending world_no_text_restarted = [mkCycle 1 (mkCaptured true false eng)]
  /\ step world_no_text_restarted (5500, TimerFired 2 frame)
     = Some world_no_text_overlapping
  /\ pending world_no_text_overlapping
     = [mkCycle 1 (mkCaptured true false eng);
        mkCycle 2 (mkCaptured true false eng)].
Proof. repeat split; vm_compute; reflexivity. Qed.

End EmptyScan.
